(** * IconPlus-Warehouse: request arbitration and item state transitions

    A shallow embedding of the services that carry the warehouse's
    borrow/return workflow ([itemService], [historyService],
    [pendingRequestService]) and of the page handlers that call them
    ([AddItem], [ItemList]), followed by the properties of the
    specification that concern them.

    The backing store is the four relations of the schema.  Every call to
    the store is one round trip that either answers or fails; which of the
    upcoming round trips fail is part of the world the code runs in, so the
    effect of a failure in the middle of a multi-step operation can be
    stated and evaluated. *)

From stdpp Require Import base option list strings sorting.
From Stdlib Require Import String.

Local Open Scope string_scope.
Local Open Scope list_scope.

(** ** Data model (src/lib/supabase.ts and the schema) *)

(** Identifiers are uuids drawn by the store; only their equality and
    freshness are ever used, and they are numbered here. *)
Abbreviation uuid := nat (only parsing).

(** Timestamps: the instant of a logical clock. *)
Abbreviation timestamp := nat (only parsing).

Inductive Role := admin | manager | employee.

Inductive UserStatus := active | deactive.

(** [UserPublicData], the shape the queries join in. *)
Record User := {
  u_id : uuid;
  u_username : string;
  u_role : Role;
  u_status : UserStatus;
}.

Inductive ItemStatus := available | used | pending_borrow | pending_return | archived.

Inductive RequestType := use | return_.

Inductive Action :=
  | created | edited | borrowed | returned | act_archived | rejected
  | requested_borrow | requested_return.

Record Item := {
  i_id : uuid;
  i_material : string;
  i_description : option string;
  i_serial_number : string;
  i_status : ItemStatus;
  i_last_used_by : option uuid;
  i_changed_by : option uuid;
  i_archived_reason : option string;
  i_archived_at : option timestamp;
  i_created_at : timestamp;
  i_updated_at : timestamp;
  i_pending_request_id : option uuid;
}.

(** A row of [pending_requests]. *)
Record PendingRequest := {
  r_id : uuid;
  r_item_id : uuid;
  r_type : RequestType;
  r_requested_by : uuid;
  r_requested_at : timestamp;
}.

(** A request as a select with embedded resources returns it: the row with
    the [item] of its [item_id] and the [requested_by_user] of its
    [requested_by]. *)
Record PendingRequestJoined := {
  j_row : PendingRequest;
  j_item : option Item;
  j_requested_by_user : option User;
}.

(** An item with [last_used_by_user] joined in. *)
Record ItemJoined := {
  ij_row : Item;
  ij_last_used_by_user : option User;
}.

Record History := {
  h_id : uuid;
  h_item_id : uuid;
  h_action : Action;
  h_performed_by : uuid;
  h_timestamp : timestamp;
  h_details : option string;
  h_previous_status : option ItemStatus;
  h_new_status : option ItemStatus;
}.

#[global] Instance Role_eq_dec : EqDecision Role.
Proof. solve_decision. Defined.
#[global] Instance UserStatus_eq_dec : EqDecision UserStatus.
Proof. solve_decision. Defined.
#[global] Instance ItemStatus_eq_dec : EqDecision ItemStatus.
Proof. solve_decision. Defined.
#[global] Instance RequestType_eq_dec : EqDecision RequestType.
Proof. solve_decision. Defined.
#[global] Instance Action_eq_dec : EqDecision Action.
Proof. solve_decision. Defined.

(** ** The store *)

(** The four relations, each a list of rows in insertion order.  A select
    is a filter, a delete removes the rows its filter matches, an update
    rewrites them. *)
Record Db := {
  users : list User;
  items : list Item;
  pending_requests : list PendingRequest;
  histories : list History;
  next_uuid : uuid;
}.

(** The world an operation runs in: the store, the outcome of the upcoming
    round trips ([Some msg]: the call fails with [error.message = msg];
    past the end of the list every call answers), and the clock. *)
Record World := {
  db : Db;
  faults : list (option string);
  clock : timestamp;
}.

(** ** Promises that may reject

    An [async] function is a world transformer that resolves ([inr]) or
    rejects with [new Error(message)] ([inl message]).  The world is
    returned in both cases: what was written before a rejection stays
    written. *)
Definition M (A : Type) : Type := World → World * (string + A).

#[global] Instance M_ret : MRet M := λ A a w, (w, inr a).

#[global] Instance M_bind : MBind M := λ A B k m w,
  match m w with
  | (w', inl e) => (w', inl e)
  | (w', inr a) => k a w'
  end.

Definition throw {A} (message : string) : M A := λ w, (w, inl message).

Definition get_db : M Db := λ w, (w, inr (db w)).

(** A write: the rows the store holds are rewritten by [f]. *)
Definition modify_db (f : Db → Db) : M unit := λ w,
  ({| db := f (db w); faults := faults w; clock := clock w |}, inr tt).

(** [new Date().toISOString()] and the store's [now()]. *)
Definition current_time : M timestamp := λ w, (w, inr (clock w)).

(** One round trip to the store: yields the [error] of the response, if
    any.  Time passes. *)
Definition round_trip : M (option string) := λ w,
  match faults w with
  | [] => ({| db := db w; faults := []; clock := S (clock w) |}, inr None)
  | f :: fs => ({| db := db w; faults := fs; clock := S (clock w) |}, inr f)
  end.

(** [gen_random_uuid()] *)
Definition fresh_uuid : M uuid := λ w,
  let d := db w in
  ({| db := {| users := users d; items := items d;
               pending_requests := pending_requests d;
               histories := histories d; next_uuid := S (next_uuid d) |};
      faults := faults w; clock := clock w |}, inr (next_uuid d)).

(** [.single()]: exactly one row, otherwise the PGRST116 error. *)
Definition single {A} (rows : list A) : option A :=
  match rows with
  | [x] => Some x
  | _ => None
  end.

(** The text PostgREST puts in a PGRST116 error. *)
Definition PGRST116_message : string :=
  "JSON object requested, multiple (or no) rows returned".

(** JavaScript's [s || null] and the truthiness of [string | null | undefined]. *)
Definition or_null (s : option string) : option string :=
  match s with
  | Some s' => if decide (s' = "") then None else Some s'
  | None => None
  end.

(** [`${request.type}`] *)
Definition type_text (t : RequestType) : string :=
  match t with
  | use => "use"
  | return_ => "return"
  end.

(** [`${user?.username}`] *)
Definition username_text (u : option User) : string :=
  match u with
  | Some u' => u_username u'
  | None => "undefined"
  end.

Definition with_items (d : Db) (its : list Item) : Db :=
  {| users := users d; items := its; pending_requests := pending_requests d;
     histories := histories d; next_uuid := next_uuid d |}.

Definition with_pending_requests (d : Db) (rs : list PendingRequest) : Db :=
  {| users := users d; items := items d; pending_requests := rs;
     histories := histories d; next_uuid := next_uuid d |}.

Definition with_histories (d : Db) (hs : list History) : Db :=
  {| users := users d; items := items d; pending_requests := pending_requests d;
     histories := hs; next_uuid := next_uuid d |}.

(** [.order('requested_at', { ascending: false })] *)
Definition newer_first (a b : PendingRequest) : Prop :=
  (r_requested_at b ≤ r_requested_at a)%nat.

#[global] Instance newer_first_dec : RelDecision newer_first.
Proof. intros a b. unfold newer_first. apply _. Defined.

(** [.eq('id', id)] on [items] and on [users], read as one object. *)
Definition item_by_id (d : Db) (id : uuid) : option Item :=
  single (filter (λ it, i_id it = id) (items d)).

Definition user_by_id (d : Db) (id : uuid) : option User :=
  single (filter (λ u, u_id u = id) (users d)).

Definition join_request (d : Db) (r : PendingRequest) : PendingRequestJoined :=
  {| j_row := r;
     j_item := item_by_id d (r_item_id r);
     j_requested_by_user := user_by_id d (r_requested_by r) |}.

Definition join_item (d : Db) (it : Item) : ItemJoined :=
  {| ij_row := it;
     ij_last_used_by_user := i_last_used_by it ≫= user_by_id d |}.

(** A history entry with [performed_by_user] joined in. *)
Record HistoryJoined := {
  hj_row : History;
  hj_performed_by_user : option User;
}.

Definition join_history (d : Db) (h : History) : HistoryJoined :=
  {| hj_row := h;
     hj_performed_by_user := user_by_id d (h_performed_by h) |}.

(** [.order('timestamp', { ascending: false })] *)
Definition latest_first (a b : History) : Prop :=
  (h_timestamp b ≤ h_timestamp a)%nat.

#[global] Instance latest_first_dec : RelDecision latest_first.
Proof. intros a b. unfold latest_first. apply _. Defined.

(** [.order('created_at', { ascending: false })] *)
Definition created_last_first (a b : Item) : Prop :=
  (i_created_at b ≤ i_created_at a)%nat.

#[global] Instance created_last_first_dec : RelDecision created_last_first.
Proof. intros a b. unfold created_last_first. apply _. Defined.

(** A JavaScript [Set], in insertion order. *)
Definition Set_add {A} `{!EqDecision A} (s : list A) (x : A) : list A :=
  if decide (x ∈ s) then s else s ++ [x].

Definition new_Set {A} `{!EqDecision A} (xs : list A) : list A :=
  foldl Set_add [] xs.

(** ** src/services/historyService.ts *)
Module historyService.

Record CreateHistoryEntry := {
  item_id : uuid;
  action : Action;
  performed_by : uuid;
  details : option string;
  previous_status : option ItemStatus;
  new_status : option ItemStatus;
}.

Definition createEntry (entry : CreateHistoryEntry) : M History :=
  error ← round_trip;
  match error with
  | Some message => throw ("Failed to create history entry: " +:+ message)
  | None =>
      id ← fresh_uuid;
      now ← current_time;
      let data :=
        {| h_id := id;
           h_item_id := item_id entry;
           h_action := action entry;
           h_performed_by := performed_by entry;
           h_timestamp := now;
           h_details := or_null (details entry);
           h_previous_status := previous_status entry;
           h_new_status := new_status entry |} in
      modify_db (λ d, with_histories d (histories d ++ [data]));;
      mret data
  end.

Definition getItemHistory (itemId : uuid) : M (list HistoryJoined) :=
  error ← round_trip;
  match error with
  | Some message => throw ("Failed to fetch item history: " +:+ message)
  | None =>
      d ← get_db;
      mret (join_history d <$>
              merge_sort latest_first
                (filter (λ h, h_item_id h = itemId) (histories d)))
  end.

(** [limit: number = 50] *)
Definition getRecentHistory (limit : option nat) : M (list HistoryJoined) :=
  let limit := default 50 limit in
  error ← round_trip;
  match error with
  | Some message => throw ("Failed to fetch recent history: " +:+ message)
  | None =>
      d ← get_db;
      mret (join_history d <$>
              take limit (merge_sort latest_first (histories d)))
  end.

End historyService.

(** ** src/services/itemService.ts *)
Module itemService.

Record ItemFormData := {
  material : string;
  description : option string;
  serial_number : string;
}.

(** The optional last argument of [updateItemStatus].  Each field is
    [undefined] ([None]), [null] ([Some None]) or a value. *)
Record AdditionalData := {
  last_used_by : option (option uuid);
  archived_reason : option (option string);
}.

(** The object handed to [.update(...)]: a field that is not set keeps
    the column as it is. *)
Record UpdateData := {
  ud_status : ItemStatus;
  ud_changed_by : uuid;
  ud_updated_at : timestamp;
  ud_last_used_by : option (option uuid);
  ud_archived_at : option (option timestamp);
  ud_archived_reason : option (option string);
}.

Definition apply_update (u : UpdateData) (it : Item) : Item :=
  {| i_id := i_id it;
     i_material := i_material it;
     i_description := i_description it;
     i_serial_number := i_serial_number it;
     i_status := ud_status u;
     i_last_used_by := default (i_last_used_by it) (ud_last_used_by u);
     i_changed_by := Some (ud_changed_by u);
     i_archived_reason := default (i_archived_reason it) (ud_archived_reason u);
     i_archived_at := default (i_archived_at it) (ud_archived_at u);
     i_created_at := i_created_at it;
     i_updated_at := ud_updated_at u;
     i_pending_request_id := i_pending_request_id it |}.

(** A missing row (PGRST116) is [null], any other error is thrown. *)
Definition getItemById (id : uuid) : M (option ItemJoined) :=
  error ← round_trip;
  match error with
  | Some message => throw ("Failed to fetch item: " +:+ message)
  | None =>
      d ← get_db;
      mret (join_item d <$> item_by_id d id)
  end.

Definition serial_number_taken (d : Db) (serial : string) : bool :=
  existsb (λ it, bool_decide (i_serial_number it = serial)) (items d).

Definition createItem (itemData : ItemFormData) (changedBy : uuid) : M Item :=
  error ← round_trip;
  match error with
  | Some message => throw ("Failed to create item: " +:+ message)
  | None =>
      d ← get_db;
      (* error.code === '23505': the UNIQUE constraint on serial_number *)
      if serial_number_taken d (serial_number itemData) then
        throw "An item with this serial number already exists"
      else
        id ← fresh_uuid;
        now ← current_time;
        let data :=
          {| i_id := id;
             i_material := material itemData;
             i_description := or_null (description itemData);
             i_serial_number := serial_number itemData;
             i_status := available;
             i_last_used_by := None;
             i_changed_by := Some changedBy;
             i_archived_reason := None;
             i_archived_at := None;
             i_created_at := now;
             i_updated_at := now;
             i_pending_request_id := None |} in
        modify_db (λ d, with_items d (items d ++ [data]));;
        mret data
  end.

(** [additionalData?.archived_reason] is truthy *)
Definition truthy (v : option (option string)) : bool :=
  match v with
  | Some (Some s) => bool_decide (s ≠ "")
  | _ => false
  end.

(** The [updateData] object [updateItemStatus] builds; [now] is
    [new Date().toISOString()]. *)
Definition updateData_of (status : ItemStatus) (changedBy : uuid)
    (additionalData : option AdditionalData) (now : timestamp) : UpdateData :=
  let ad_last_used_by := additionalData ≫= last_used_by in
  let ad_archived_reason := additionalData ≫= archived_reason in
  {| ud_status := status;
     ud_changed_by := changedBy;
     ud_updated_at := now;
     ud_last_used_by := ad_last_used_by;
     ud_archived_at :=
       if decide (status = archived) then Some (Some now)
       else if decide (status = available ∧ ad_archived_reason = Some None)
            then Some None
            else None;
     ud_archived_reason :=
       let in_branch :=
         if decide (status = archived) then
           if truthy ad_archived_reason then ad_archived_reason else None
         else if decide (status = available ∧ ad_archived_reason = Some None)
              then Some None
              else None in
       (* Handle archived_reason updates for restoration *)
       match ad_archived_reason with
       | Some v => Some v
       | None => in_branch
       end |}.

Definition updateItemStatus (id : uuid) (status : ItemStatus) (changedBy : uuid)
    (additionalData : option AdditionalData) : M Item :=
  now ← current_time;
  let updateData := updateData_of status changedBy additionalData now in
  error ← round_trip;
  match error with
  | Some message => throw ("Failed to update item status: " +:+ message)
  | None =>
      d ← get_db;
      match item_by_id d id with
      | None => throw ("Failed to update item status: " +:+ PGRST116_message)
      | Some it =>
          let data := apply_update updateData it in
          modify_db (λ d, with_items d
            ((λ x, if decide (i_id x = id) then data else x) <$> items d));;
          mret data
      end
  end.

Record Validation := {
  valid : bool;
  message : option string;
}.

Definition validateReturnRequest (itemId userId : uuid) : M Validation :=
  item ← getItemById itemId;
  match item with
  | None => mret {| valid := false; message := Some "Item not found" |}
  | Some item =>
      if decide (i_status (ij_row item) ≠ used) then
        mret {| valid := false; message := Some "Item is not currently in use" |}
      else if decide (i_last_used_by (ij_row item) ≠ Some userId) then
        mret {| valid := false;
                message := Some ("Only " +:+
                  default "the borrower"
                    (or_null (u_username <$> ij_last_used_by_user item))
                  +:+ " can return this item") |}
      else mret {| valid := true; message := None |}
  end.

(** An error other than PGRST116 is logged and answered [false];
    PGRST116 (no row, or several) leaves [data] null. *)
Definition hasUserPendingRequest (itemId userId : uuid) (actionType : RequestType)
    : M bool :=
  error ← round_trip;
  match error with
  | Some _ => mret false
  | None =>
      d ← get_db;
      let data :=
        single (filter (λ r, r_item_id r = itemId ∧ r_requested_by r = userId
                             ∧ r_type r = actionType) (pending_requests d)) in
      mret (bool_decide (is_Some data))
  end.

Definition getItems : M (list ItemJoined) :=
  error ← round_trip;
  match error with
  | Some message => throw ("Failed to fetch items: " +:+ message)
  | None =>
      d ← get_db;
      mret (join_item d <$> merge_sort created_last_first (items d))
  end.

(** [Partial<ItemFormData>]: a field that is [undefined] is not sent. *)
Record PartialItemFormData := {
  p_material : option string;
  p_description : option string;
  p_serial_number : option string;
}.

(** The text of the store's error 23505 on [items.serial_number]. *)
Definition unique_violation_message : string :=
  "duplicate key value violates unique constraint items_serial_number_key".

(** The row [updateItem] writes in place of [it]. *)
Definition edited_item (itemData : PartialItemFormData) (changedBy : uuid)
    (now : timestamp) (it : Item) : Item :=
  {| i_id := i_id it;
     i_material := default (i_material it) (p_material itemData);
     i_description :=
       match p_description itemData with
       | Some s => Some s
       | None => i_description it
       end;
     i_serial_number := default (i_serial_number it) (p_serial_number itemData);
     i_status := i_status it;
     i_last_used_by := i_last_used_by it;
     i_changed_by := Some changedBy;
     i_archived_reason := i_archived_reason it;
     i_archived_at := i_archived_at it;
     i_created_at := i_created_at it;
     i_updated_at := now;
     i_pending_request_id := i_pending_request_id it |}.

Definition updateItem (id : uuid) (itemData : PartialItemFormData)
    (changedBy : uuid) : M Item :=
  now ← current_time;
  error ← round_trip;
  match error with
  | Some message => throw ("Failed to update item: " +:+ message)
  | None =>
      d ← get_db;
      match item_by_id d id with
      | None => throw ("Failed to update item: " +:+ PGRST116_message)
      | Some it =>
          let data := edited_item itemData changedBy now it in
          (* the UNIQUE constraint on serial_number *)
          if existsb (λ x, bool_decide (i_id x ≠ id
                                        ∧ i_serial_number x = i_serial_number data))
                     (items d)
          then throw ("Failed to update item: " +:+ unique_violation_message)
          else
            modify_db (λ d, with_items d
              ((λ x, if decide (i_id x = id) then data else x) <$> items d));;
            mret data
      end
  end.

(** Check if a user can request to return an item: only the user who
    borrowed the item can.  Any error answers [false]. *)
Definition canUserReturnItem (itemId userId : uuid) : M bool :=
  error ← round_trip;
  d ← get_db;
  match error, item_by_id d itemId with
  | None, Some data =>
      mret (bool_decide (i_status data = used)
            && bool_decide (i_last_used_by data = Some userId))
  | _, _ => mret false
  end.

End itemService.

(** [for (const x of xs) { await body(x) }] *)
Fixpoint for_of {A} (xs : list A) (body : A → M unit) : M unit :=
  match xs with
  | [] => mret tt
  | x :: xs' => body x;; for_of xs' body
  end.

(** ** src/services/pendingRequestService.ts *)
Module pendingRequestService.

Record CreateRequestParams := {
  item_id : uuid;
  requested_by : uuid;
  action_type : RequestType;
}.

Definition createRequest (params : CreateRequestParams) : M PendingRequest :=
  (* Check if user already has a pending request for this item *)
  hasPendingRequest ← itemService.hasUserPendingRequest
    (item_id params) (requested_by params) (action_type params);
  if (hasPendingRequest : bool) then
    throw "You already have a pending request for this item"
  else
    (* Validate return requests *)
    (if decide (action_type params = return_) then
       validation ← itemService.validateReturnRequest
         (item_id params) (requested_by params);
       if itemService.valid validation then mret tt
       else throw (default "Cannot create return request"
                     (or_null (itemService.message validation)))
     else mret tt);;
    error ← round_trip;
    match error with
    | Some message => throw ("Failed to create request: " +:+ message)
    | None =>
        id ← fresh_uuid;
        now ← current_time;
        let data :=
          {| r_id := id;
             r_item_id := item_id params;
             r_type := action_type params;
             r_requested_by := requested_by params;
             r_requested_at := now |} in
        modify_db (λ d, with_pending_requests d (pending_requests d ++ [data]));;
        mret data
    end.

Definition getPendingRequestsForItem (itemId : uuid) : M (list PendingRequestJoined) :=
  error ← round_trip;
  match error with
  | Some message =>
      throw ("Failed to fetch pending requests for item: " +:+ message)
  | None =>
      d ← get_db;
      mret (join_request d <$>
              merge_sort newer_first
                (filter (λ r, r_item_id r = itemId) (pending_requests d)))
  end.

Definition deleteRequest (id : uuid) : M unit :=
  error ← round_trip;
  match error with
  | Some message => throw ("Failed to delete request: " +:+ message)
  | None =>
      modify_db (λ d, with_pending_requests d
                        (filter (λ r, r_id r ≠ id) (pending_requests d)))
  end.

(** The select of one request by id that opens [approveRequest] and
    [rejectRequest]: [requestError || !request]. *)
Definition select_request (requestId : uuid) : M (option PendingRequestJoined) :=
  requestError ← round_trip;
  d ← get_db;
  match requestError with
  | Some _ => mret None
  | None =>
      mret (join_request d <$>
              single (filter (λ r, r_id r = requestId) (pending_requests d)))
  end.

(** [request.type === 'use' ? 'used' : 'available'] *)
Definition newStatus_of (type : RequestType) : ItemStatus :=
  match type with
  | use => used
  | return_ => available
  end.

(** The [details] template strings of the history entries. *)
Definition approved_details (request : PendingRequestJoined) : string :=
  "Request approved - " +:+
  (match r_type (j_row request) with
   | use => "Item borrowed"
   | return_ => "Item returned"
   end) +:+ " by " +:+ username_text (j_requested_by_user request).

Definition auto_rejected_details (request : PendingRequestJoined)
    (otherRequest : PendingRequest) (other_user : User) : string :=
  let actionDescription :=
    match r_type otherRequest with
    | use => "borrow"
    | return_ => "return"
    end in
  "Request automatically rejected - " +:+ u_username other_user +:+ "'s " +:+
  actionDescription +:+ " request was denied because " +:+
  username_text (j_requested_by_user request) +:+ "'s " +:+
  type_text (r_type (j_row request)) +:+ " request was approved".

(** Approve a request and automatically reject ALL other pending
    requests for the same item. *)
Definition approveRequest (requestId approvedBy : uuid) : M unit :=
  (* Get the request details first *)
  request ← select_request requestId;
  match request with
  | None => throw "Request not found"
  | Some request =>
      match j_item request with
      | None => throw "Item data not found in request"
      | Some item =>
          (* Get ALL pending requests for the same item *)
          allPendingRequests ← getPendingRequestsForItem (r_item_id (j_row request));
          (* Find other requests (excluding the one being approved) *)
          let otherRequests :=
            filter (λ r, r_id (j_row r) ≠ requestId) allPendingRequests in
          (* Determine new status based on request type *)
          let newStatus := newStatus_of (r_type (j_row request)) in
          (* Set last_used_by based on the request type *)
          let additionalData :=
            {| itemService.last_used_by :=
                 Some (match r_type (j_row request) with
                       | use => Some (r_requested_by (j_row request))
                       | return_ => None
                       end);
               itemService.archived_reason := None |} in
          (* 1. Update item status first *)
          itemService.updateItemStatus (i_id item) newStatus approvedBy
            (Some additionalData);;
          (* 2. Add history entry for the approved request *)
          historyService.createEntry
            {| historyService.item_id := i_id item;
               historyService.action :=
                 match r_type (j_row request) with
                 | use => borrowed
                 | return_ => returned
                 end;
               historyService.performed_by := approvedBy;
               historyService.details := Some (approved_details request);
               historyService.previous_status := Some (i_status item);
               historyService.new_status := Some newStatus |};;
          (* 3. Add history entries for ALL other rejected requests *)
          for_of otherRequests (λ otherRequest,
            match j_requested_by_user otherRequest with
            | Some other_user =>
                historyService.createEntry
                  {| historyService.item_id := i_id item;
                     historyService.action := rejected;
                     historyService.performed_by := approvedBy;
                     historyService.details :=
                       Some (auto_rejected_details request
                               (j_row otherRequest) other_user);
                     historyService.previous_status := Some (i_status item);
                     historyService.new_status := Some newStatus |};;
                mret tt
            | None => mret tt
            end);;
          (* 4. Delete ALL pending requests for this item *)
          deleteError ← round_trip;
          match deleteError with
          | Some message =>
              throw ("Failed to delete pending requests: " +:+ message)
          | None =>
              modify_db (λ d, with_pending_requests d
                (filter (λ r, r_item_id r ≠ r_item_id (j_row request))
                        (pending_requests d)))
          end
      end
  end.

Definition manually_rejected_details (request : PendingRequestJoined) : string :=
  "Request manually rejected - " +:+
  username_text (j_requested_by_user request) +:+ "'s " +:+
  type_text (r_type (j_row request)) +:+ " request was denied by admin".

(** Reject a specific request *)
Definition rejectRequest (requestId rejectedBy : uuid) : M unit :=
  request ← select_request requestId;
  match request with
  | None => throw "Request not found"
  | Some request =>
      match j_item request with
      | None => throw "Item data not found in request"
      | Some item =>
          (* Add history entry for the rejected request *)
          historyService.createEntry
            {| historyService.item_id := i_id item;
               historyService.action := rejected;
               historyService.performed_by := rejectedBy;
               historyService.details := Some (manually_rejected_details request);
               historyService.previous_status := Some (i_status item);
               (* Status remains the same for rejection *)
               historyService.new_status := Some (i_status item) |};;
          (* Delete only the specific request *)
          deleteRequest requestId
      end
  end.

Definition getAllPendingRequests : M (list PendingRequestJoined) :=
  error ← round_trip;
  match error with
  | Some message => throw ("Failed to fetch pending requests: " +:+ message)
  | None =>
      d ← get_db;
      mret (join_request d <$> merge_sort newer_first (pending_requests d))
  end.

Definition getRequestsByUser (userId : uuid) : M (list PendingRequestJoined) :=
  error ← round_trip;
  match error with
  | Some message => throw ("Failed to fetch user requests: " +:+ message)
  | None =>
      d ← get_db;
      mret (join_request d <$>
              merge_sort newer_first
                (filter (λ r, r_requested_by r = userId) (pending_requests d)))
  end.

(** One group of [getGroupedPendingRequests]. *)
Record RequestGroup := {
  g_item : option Item;
  g_type : RequestType;
  g_requests : list PendingRequestJoined;
}.

(** The key [`${request.item_id}-${request.type}`]: the two parts can be
    read back from it, so it is kept as the pair. *)
Definition group_key (request : PendingRequestJoined) : uuid * RequestType :=
  (r_item_id (j_row request), r_type (j_row request)).

(** The body of the [reduce]; the accumulator object keeps its keys in
    insertion order. *)
Definition group_push (acc : list (uuid * RequestType * RequestGroup))
    (request : PendingRequestJoined) : list (uuid * RequestType * RequestGroup) :=
  let key := group_key request in
  let acc :=
    if decide (key ∈ acc.*1) then acc
    else acc ++ [(key, {| g_item := j_item request;
                          g_type := r_type (j_row request);
                          g_requests := [] |})] in
  (λ kv, if decide (kv.1 = key)
         then (kv.1, {| g_item := g_item kv.2;
                        g_type := g_type kv.2;
                        g_requests := g_requests kv.2 ++ [request] |})
         else kv) <$> acc.

(** Get pending requests grouped by item and action type for dashboard
    display *)
Definition getGroupedPendingRequests
    : M (list (uuid * RequestType * RequestGroup)) :=
  requests ← getAllPendingRequests;
  mret (foldl group_push [] requests).

(** Check if there are conflicting requests for an item (e.g., both
    borrow and return requests for the same item) *)
Definition hasConflictingRequests (itemId : uuid) : M bool :=
  requests ← getPendingRequestsForItem itemId;
  let types := new_Set ((λ r, r_type (j_row r)) <$> requests) in
  (* More than one type means conflict *)
  mret (bool_decide (1 < List.length types)%nat).

Record RequestStatistics := {
  totalPending : nat;
  borrowRequests : nat;
  returnRequests : nat;
  conflictingItems : nat;
}.

(** The body of the [reduce] of [getRequestStatistics]: the types seen per
    item. *)
Definition types_push (acc : list (uuid * list RequestType))
    (request : PendingRequestJoined) : list (uuid * list RequestType) :=
  let key := r_item_id (j_row request) in
  let acc := if decide (key ∈ acc.*1) then acc else acc ++ [(key, [])] in
  (λ kv, if decide (kv.1 = key)
         then (kv.1, Set_add kv.2 (r_type (j_row request)))
         else kv) <$> acc.

(** Get statistics about pending requests *)
Definition getRequestStatistics : M RequestStatistics :=
  requests ← getAllPendingRequests;
  let groupedByItem := foldl types_push [] requests in
  let conflictingItems :=
    List.length (filter (λ types, (1 < List.length types)%nat) groupedByItem.*2) in
  mret {| totalPending := List.length requests;
          borrowRequests :=
            List.length (filter (λ r, r_type (j_row r) = use) requests);
          returnRequests :=
            List.length (filter (λ r, r_type (j_row r) = return_) requests);
          conflictingItems := conflictingItems |}.

End pendingRequestService.

(** ** Page handlers

    A handler takes what the component holds when it runs (the stored
    [userId], the listed rows) as arguments.  Its [try]/[catch] hands the
    message of whatever was thrown to [setError]; that message is the
    [inl] of the result.  The refresh of the list that ends a handler
    ([loadData]) reads only, keeps its own errors, and is left out. *)

(** src/pages/AddItem.tsx *)
Module AddItem.

Definition onSubmit (userId : option uuid) (data : itemService.ItemFormData)
    : M unit :=
  match userId with
  | None => throw "User not authenticated"
  | Some userId =>
      newItem ← itemService.createItem data userId;
      (* Add history entry for item creation *)
      historyService.createEntry
        {| historyService.item_id := i_id newItem;
           historyService.action := created;
           historyService.performed_by := userId;
           historyService.details := Some "Item created in system";
           historyService.previous_status := None;
           historyService.new_status := Some available |};;
      mret tt
  end.

End AddItem.

(** src/pages/ItemList.tsx *)
Module ItemList.

(** Check if current user has pending request for this item, in the
    requests the page has loaded. *)
Definition hasUserPendingRequest (pendingRequests : list PendingRequest)
    (currentUserId : option uuid) (itemId : uuid) (actionType : RequestType)
    : bool :=
  match currentUserId with
  | None => false
  | Some currentUserId =>
      existsb (λ request,
                 bool_decide (r_item_id request = itemId
                              ∧ r_requested_by request = currentUserId
                              ∧ r_type request = actionType))
              pendingRequests
  end.

(** employee borrow/return functionality; [item] is the listed row. *)
Definition handleBorrowReturn (currentUserId : option uuid)
    (pendingRequests : list PendingRequest) (requesting : list uuid)
    (item : Item) : M unit :=
  match currentUserId with
  | None => throw "User not authenticated"
  | Some userId =>
      (* Check if item can be acted upon *)
      if decide (i_status item = used ∧ i_last_used_by item ≠ Some userId) then
        throw "You can only return items that you borrowed"
      else if decide (i_id item ∈ requesting) then mret tt
      else
        (* Check if user already has a pending request for this action *)
        let actionType :=
          if decide (i_status item = available) then use else return_ in
        if hasUserPendingRequest pendingRequests currentUserId (i_id item) actionType
        then throw ("You already have a pending " +:+ type_text actionType +:+
                    " request for this item")
        else
          let submit (historyAction : Action) (details : string) : M unit :=
            (* Create pending request *)
            pendingRequestService.createRequest
              {| pendingRequestService.item_id := i_id item;
                 pendingRequestService.requested_by := userId;
                 pendingRequestService.action_type := actionType |};;
            (* Add history entry *)
            historyService.createEntry
              {| historyService.item_id := i_id item;
                 historyService.action := historyAction;
                 historyService.performed_by := userId;
                 historyService.details := Some details;
                 historyService.previous_status := Some (i_status item);
                 (* Status doesn't change until approved *)
                 historyService.new_status := Some (i_status item) |};;
            mret tt in
          match i_status item with
          | available => submit requested_borrow "Requested to borrow item"
          | used => submit requested_return "Requested to return item"
          | _ => throw "Cannot perform action on this item"
          end
  end.

Definition confirmArchive (selectedItem : option Item) (userId : option uuid)
    (reason : string) : M unit :=
  match selectedItem with
  | None => mret tt
  | Some selectedItem =>
      match userId with
      | None => throw "User not authenticated"
      | Some userId =>
          itemService.updateItemStatus (i_id selectedItem) archived userId
            (Some {| itemService.last_used_by := None;
                     itemService.archived_reason := Some (Some reason) |});;
          historyService.createEntry
            {| historyService.item_id := i_id selectedItem;
               historyService.action := act_archived;
               historyService.performed_by := userId;
               historyService.details := Some ("Item archived: " +:+ reason);
               historyService.previous_status := Some (i_status selectedItem);
               historyService.new_status := Some archived |};;
          mret tt
      end
  end.

Definition confirmUnarchive (selectedItem : option Item) (userId : option uuid)
    (reason : string) : M unit :=
  match selectedItem with
  | None => mret tt
  | Some selectedItem =>
      match userId with
      | None => throw "User not authenticated"
      | Some userId =>
          (* Restore item to available status *)
          itemService.updateItemStatus (i_id selectedItem) available userId
            (Some {| itemService.archived_reason := Some None;
                     (* Clear last used by when restoring *)
                     itemService.last_used_by := Some None |});;
          historyService.createEntry
            {| historyService.item_id := i_id selectedItem;
               (* Using 'edited' as the closest action type for restoration *)
               historyService.action := edited;
               historyService.performed_by := userId;
               historyService.details :=
                 Some ("Item restored from archive: " +:+ reason);
               historyService.previous_status := Some archived;
               historyService.new_status := Some available |};;
          mret tt
      end
  end.

(** The action cell of a listed row, for [userRole === 'admin']:
    "Restore" on an archived row, otherwise "Archive" unless the row is
    used.  No other role gets either button. *)
Definition archive_button (userRole : option Role) (item : Item) : bool :=
  bool_decide (userRole = Some admin)
  && negb (bool_decide (i_status item = archived))
  && bool_decide (i_status item ≠ used).

Definition restore_button (userRole : option Role) (item : Item) : bool :=
  bool_decide (userRole = Some admin)
  && bool_decide (i_status item = archived).

(** Pressing "Archive" on a listed row ([handleArchive] selects it) and
    confirming the modal; a button that is not rendered cannot be
    pressed. *)
Definition archive (userRole : option Role) (userId : option uuid)
    (item : Item) (reason : string) : M unit :=
  if archive_button userRole item
  then confirmArchive (Some item) userId reason
  else mret tt.

(** Pressing "Restore" on a listed row and confirming the modal. *)
Definition restore (userRole : option Role) (userId : option uuid)
    (item : Item) (reason : string) : M unit :=
  if restore_button userRole item
  then confirmUnarchive (Some item) userId reason
  else mret tt.

(** Whether the borrow/return button of a listed row is enabled. *)
Definition canUserActOnItem (pendingRequests : list PendingRequest)
    (currentUserId : option uuid) (item : Item) : bool :=
  match i_status item with
  | available =>
      (* Check if user already has a pending borrow request *)
      negb (hasUserPendingRequest pendingRequests currentUserId (i_id item) use)
  | used =>
      (* Only borrower can return and only if they don't have a pending
         return request *)
      bool_decide (i_last_used_by item = currentUserId)
      && negb (hasUserPendingRequest pendingRequests currentUserId (i_id item)
                 return_)
  | _ => false (* Cannot act on archived items *)
  end.

Definition getBorrowReturnButtonText (pendingRequests : list PendingRequest)
    (currentUserId : option uuid) (item : Item) : string :=
  match i_status item with
  | available =>
      if hasUserPendingRequest pendingRequests currentUserId (i_id item) use
      then "Pending" else "Request"
  | used =>
      if hasUserPendingRequest pendingRequests currentUserId (i_id item) return_
      then "Pending" else "Return"
  | _ => ""
  end.

End ItemList.

(** src/pages/EditItem.tsx *)
Module EditItem.

(** [a !== b] for the loaded description ([string | null]) and the
    form's ([string | undefined]): [null] and [undefined] differ from
    everything on the other side. *)
Definition description_differs (original : option string) (data : option string)
    : bool :=
  match original, data with
  | Some a, Some b => bool_decide (a ≠ b)
  | _, _ => true
  end.

(** [`${description || 'None'}`] *)
Definition description_text (description : option string) : string :=
  default "None" (or_null description).

Definition changes (originalItem : Item) (data : itemService.ItemFormData)
    : list string :=
  (if decide (i_material originalItem ≠ itemService.material data)
   then ["Material: " +:+ i_material originalItem +:+ " → "
         +:+ itemService.material data]
   else [])
  ++
  (if description_differs (i_description originalItem)
        (itemService.description data)
   then ["Description: " +:+ description_text (i_description originalItem)
         +:+ " → " +:+ description_text (itemService.description data)]
   else []).

(** [changes.join(', ')] *)
Fixpoint join (sep : string) (xs : list string) : string :=
  match xs with
  | [] => ""
  | [x] => x
  | x :: xs' => x +:+ sep +:+ join sep xs'
  end.

Definition onSubmit (id : option uuid) (originalItem : option Item)
    (userId : option uuid) (data : itemService.ItemFormData) : M unit :=
  match id, originalItem with
  | Some id, Some originalItem =>
      match userId with
      | None => throw "User not authenticated"
      | Some userId =>
          itemService.updateItem id
            {| itemService.p_material := Some (itemService.material data);
               itemService.p_description := itemService.description data;
               itemService.p_serial_number :=
                 Some (itemService.serial_number data) |}
            userId;;
          (* Add history entry for item edit *)
          let changes := changes originalItem data in
          if decide (0 < List.length changes)%nat then
            historyService.createEntry
              {| historyService.item_id := id;
                 historyService.action := edited;
                 historyService.performed_by := userId;
                 historyService.details :=
                   Some ("Item updated: " +:+ join ", " changes);
                 historyService.previous_status := None;
                 historyService.new_status := None |};;
            mret tt
          else mret tt
      end
  | _, _ => mret tt
  end.

End EditItem.

(** ** The core operations, as one step each *)

Inductive Op :=
  | Create (userId : option uuid) (data : itemService.ItemFormData)
  | SubmitRequest (params : pendingRequestService.CreateRequestParams)
  | BorrowReturn (currentUserId : option uuid)
      (pendingRequests : list PendingRequest) (requesting : list uuid)
      (item : Item)
  | ApproveRequest (requestId approvedBy : uuid)
  | RejectRequest (requestId rejectedBy : uuid)
  | Archive (userRole : option Role) (userId : option uuid) (item : Item)
      (reason : string)
  | Restore (userRole : option Role) (userId : option uuid) (item : Item)
      (reason : string).

Definition perform (o : Op) : M unit :=
  match o with
  | Create userId data => AddItem.onSubmit userId data
  | SubmitRequest params => pendingRequestService.createRequest params;; mret tt
  | BorrowReturn u prs rq item => ItemList.handleBorrowReturn u prs rq item
  | ApproveRequest requestId approvedBy =>
      pendingRequestService.approveRequest requestId approvedBy
  | RejectRequest requestId rejectedBy =>
      pendingRequestService.rejectRequest requestId rejectedBy
  | Archive role userId item reason => ItemList.archive role userId item reason
  | Restore role userId item reason => ItemList.restore role userId item reason
  end.

(** The world after an operation, whether it resolved or rejected. *)
Definition step (w : World) (o : Op) : World := (perform o w).1.

Definition run (w : World) (ops : list Op) : World := foldl step w ops.

(** * Vocabulary of the properties *)

(** [untouched proj m]: whatever its outcome, [m] leaves the part [proj]
    of the store as it found it. *)
Definition untouched {B} (proj : Db → B) {A} (m : M A) : Prop :=
  ∀ w, proj (db (m w).1) = proj (db w).

(** [keeps P m]: whatever its outcome, [m] preserves [P]. *)
Definition keeps (P : Db → Prop) {A} (m : M A) : Prop :=
  ∀ w, P (db w) → P (db (m w).1).

(** [records entry h]: the row [h] of [histories] is what
    [historyService.createEntry entry] inserts. *)
Definition records (entry : historyService.CreateHistoryEntry) (h : History) : Prop :=
  h_item_id h = historyService.item_id entry
  ∧ h_action h = historyService.action entry
  ∧ h_performed_by h = historyService.performed_by entry
  ∧ h_details h = or_null (historyService.details entry)
  ∧ h_previous_status h = historyService.previous_status entry
  ∧ h_new_status h = historyService.new_status entry.

(** The open requests that lose when [requestId] is approved: every other
    request of the same item, as [approveRequest] reads them. *)
Definition otherRequests (d : Db) (requestId itemId : uuid) : list PendingRequestJoined :=
  filter (λ r, r_id (j_row r) ≠ requestId)
    (join_request d <$>
       merge_sort newer_first
         (filter (λ r, r_item_id r = itemId) (pending_requests d))).

(** The entry [approveRequest] writes for a loser whose user is known. *)
Definition auto_rejected_entry (request : PendingRequestJoined) (item : Item)
    (approvedBy : uuid) (otherRequest : PendingRequestJoined)
    : option historyService.CreateHistoryEntry :=
  (λ other_user,
     {| historyService.item_id := i_id item;
        historyService.action := rejected;
        historyService.performed_by := approvedBy;
        historyService.details :=
          Some (pendingRequestService.auto_rejected_details request
                  (j_row otherRequest) other_user);
        historyService.previous_status := Some (i_status item);
        historyService.new_status :=
          Some (pendingRequestService.newStatus_of (r_type (j_row request))) |})
  <$> j_requested_by_user otherRequest.

(** The entry [approveRequest] writes for the winner. *)
Definition approved_entry (request : PendingRequestJoined) (item : Item)
    (approvedBy : uuid) : historyService.CreateHistoryEntry :=
  {| historyService.item_id := i_id item;
     historyService.action :=
       match r_type (j_row request) with
       | use => borrowed
       | return_ => returned
       end;
     historyService.performed_by := approvedBy;
     historyService.details :=
       Some (pendingRequestService.approved_details request);
     historyService.previous_status := Some (i_status item);
     historyService.new_status :=
       Some (pendingRequestService.newStatus_of (r_type (j_row request))) |}.

(** The item [approveRequest] writes in place of [item]. *)
Definition approved_item (request : PendingRequest) (approvedBy : uuid)
    (now : timestamp) (item : Item) : Item :=
  itemService.apply_update
    (itemService.updateData_of
       (pendingRequestService.newStatus_of (r_type request)) approvedBy
       (Some {| itemService.last_used_by :=
                  Some (match r_type request with
                        | use => Some (r_requested_by request)
                        | return_ => None
                        end);
                itemService.archived_reason := None |})
       now)
    item.

(** ** A small warehouse, for the examples *)

Definition root : User :=
  {| u_id := 1; u_username := "root"; u_role := admin; u_status := active |}.

Definition ann : User :=
  {| u_id := 2; u_username := "ann"; u_role := employee; u_status := active |}.

Definition bob : User :=
  {| u_id := 3; u_username := "bob"; u_role := employee; u_status := active |}.

Definition drill : Item :=
  {| i_id := 10;
     i_material := "drill";
     i_description := None;
     i_serial_number := "SN-0001";
     i_status := available;
     i_last_used_by := None;
     i_changed_by := Some 1;
     i_archived_reason := None;
     i_archived_at := None;
     i_created_at := 0;
     i_updated_at := 0;
     i_pending_request_id := None |}.

Definition warehouse : Db :=
  {| users := [root; ann; bob];
     items := [drill];
     pending_requests := [];
     histories := [];
     next_uuid := 100 |}.

(** A world in which every round trip answers. *)
Definition answering (d : Db) : World :=
  {| db := d; faults := []; clock := 1 |}.

(** The same store, with the round trip after the next [n] failing. *)
Definition failing_after (n : nat) (message : string) (w : World) : World :=
  {| db := db w;
     faults := replicate n None ++ [Some message];
     clock := clock w |}.

Definition borrow (u : User) : pendingRequestService.CreateRequestParams :=
  {| pendingRequestService.item_id := 10;
     pendingRequestService.requested_by := u_id u;
     pendingRequestService.action_type := use |}.

Definition give_back (u : User) : pendingRequestService.CreateRequestParams :=
  {| pendingRequestService.item_id := 10;
     pendingRequestService.requested_by := u_id u;
     pendingRequestService.action_type := return_ |}.

(** ann has asked for the drill (request 100). *)
Definition one_request : World :=
  run (answering warehouse) [SubmitRequest (borrow ann)].

(** ann (request 100) and bob (request 101) have both asked for it. *)
Definition two_requests : World :=
  run (answering warehouse) [SubmitRequest (borrow ann); SubmitRequest (borrow bob)].

(** ann holds the drill. *)
Definition drill_in_use : World :=
  run one_request [ApproveRequest 100 1].

(** ** The predicates of the specification *)

(** The item is used and [userId] is the one who holds it. *)
Definition may_return (d : Db) (itemId userId : uuid) : Prop :=
  ∃ it, item_by_id d itemId = Some it
        ∧ i_status it = used
        ∧ i_last_used_by it = Some userId.

(** What [validateReturnRequest] answers about an item that exists but may
    not be returned by the user: the failure the specification calls
    NotAuthorizedForReturn. *)
Definition NotAuthorizedForReturn (message : string) : Prop :=
  message = "Item is not currently in use"
  ∨ ∃ name, message = "Only " +:+ name +:+ " can return this item".

(** The (item, requester, type) tuple of a request. *)
Definition request_key (r : PendingRequest) : nat * nat * RequestType :=
  (r_item_id r, r_requested_by r, r_type r).

Definition params_key (p : pendingRequestService.CreateRequestParams)
    : nat * nat * RequestType :=
  (pendingRequestService.item_id p, pendingRequestService.requested_by p,
   pendingRequestService.action_type p).

(** At most one open request per (item, requester, type). *)
Definition at_most_one_open (d : Db) : Prop :=
  NoDup (request_key <$> pending_requests d).

(** [status = used] if and only if [last_used_by] is non-null, for every item. *)
Definition used_iff_borrower (d : Db) : Prop :=
  Forall (λ it, i_status it = used ↔ is_Some (i_last_used_by it)) (items d).

(** The operations that submit a request. *)
Definition submits (o : Op) : bool :=
  match o with
  | SubmitRequest _ | BorrowReturn _ _ _ _ => true
  | _ => false
  end.

(** Along [ops], run from [w], the store answers the first round trip of
    every submission: the read of [hasUserPendingRequest]. *)
Fixpoint checks_answered (w : World) (ops : list Op) : Prop :=
  match ops with
  | [] => True
  | o :: ops' =>
      (submits o = true → hd None (faults w) = None)
      ∧ checks_answered (step w o) ops'
  end.

(** The status a row is listed with is the status the store holds for it. *)
Definition listing_current (d : Db) (item : Item) : Prop :=
  ∀ it, it ∈ items d → i_id it = i_id item → i_status it = i_status item.

(** Along [ops], run from [w], every archive acts on a current listing. *)
Fixpoint archives_current (w : World) (ops : list Op) : Prop :=
  match ops with
  | [] => True
  | o :: ops' =>
      match o with
      | Archive _ _ item _ => listing_current (db w) item
      | _ => True
      end
      ∧ archives_current (step w o) ops'
  end.

(** The drill has been archived. *)
Definition drill_archived : World :=
  run (answering warehouse) [Archive (Some admin) (Some 1) drill "worn out"].

(** The drill as a list loaded after that shows it. *)
Definition apply_archived (it : Item) : Item :=
  itemService.apply_update
    (itemService.updateData_of archived 1
       (Some {| itemService.last_used_by := None;
                itemService.archived_reason := Some (Some "worn out") |}) 1)
    it.

(** * Vocabulary of the further properties *)

(** [evolves proj R m]: whatever its outcome, [m] takes the part [proj] of
    the store to one that [R] relates it to. *)
Definition evolves {B} (proj : Db → B) (R : relation B) {A} (m : M A) : Prop :=
  ∀ w, R (proj (db w)) (proj (db (m w).1)).

(** The relation of a state in which [Q] holds to states in which it
    still does. *)
Definition preserves {B} (Q : B → Prop) : relation B := λ x y, Q x → Q y.

#[global] Instance preserves_preorder {B} (Q : B → Prop) : PreOrder (preserves Q).
Proof.
  unfold preserves. split; [by intros x|].
  intros x y z Hxy Hyz Hx. by apply Hyz, Hxy.
Qed.

(** What identifies an item and is never rewritten by a change of status. *)
Definition identity (it : Item)
    : nat * string * string * option string * nat * option nat :=
  (i_id it, i_serial_number it, i_material it, i_description it,
   i_created_at it, i_pending_request_id it).

(** The items of [l] are still there in [l'], each with its identity, in
    the same order; [l'] may hold more. *)
Definition same_identities (l l' : list Item) : Prop :=
  (identity <$> l) `prefix_of` (identity <$> l').

#[global] Instance same_identities_preorder : PreOrder same_identities.
Proof.
  unfold same_identities. split; [by intros l|].
  intros l1 l2 l3 H12 H23. by etrans.
Qed.

(** [status = archived] implies [archived_at] is set, for every item. *)
Definition stamped (l : list Item) : Prop :=
  Forall (λ it, i_status it = archived → is_Some (i_archived_at it)) l.

(** No two items share a serial number. *)
Definition serials_unique (l : list Item) : Prop :=
  NoDup (i_serial_number <$> l).

(** No two open requests share an id. *)
Definition request_ids_unique (d : Db) : Prop :=
  NoDup (r_id <$> pending_requests d).

(** The three orders are total and transitive. *)
#[global] Instance newer_first_total : Total newer_first.
Proof. intros a b. unfold newer_first. lia. Qed.

#[global] Instance newer_first_trans : Transitive newer_first.
Proof. intros a b c. unfold newer_first. lia. Qed.

#[global] Instance latest_first_total : Total latest_first.
Proof. intros a b. unfold latest_first. lia. Qed.

#[global] Instance latest_first_trans : Transitive latest_first.
Proof. intros a b c. unfold latest_first. lia. Qed.

#[global] Instance created_last_first_total : Total created_last_first.
Proof. intros a b. unfold created_last_first. lia. Qed.

#[global] Instance created_last_first_trans : Transitive created_last_first.
Proof. intros a b c. unfold created_last_first. lia. Qed.

(** What the workflow decides about an item and an edit never rewrites. *)
Definition lifecycle (it : Item)
    : nat * ItemStatus * option nat * option string * option nat * nat :=
  (i_id it, i_status it, i_last_used_by it, i_archived_reason it,
   i_archived_at it, i_created_at it).

(** The answer both return checks compute from the stored item. *)
Definition holds_item (d : Db) (itemId userId : uuid) : bool :=
  match item_by_id d itemId with
  | Some data =>
      bool_decide (i_status data = used)
      && bool_decide (i_last_used_by data = Some userId)
  | None => false
  end.


(** The types of the open requests of an item, and the conflict the
    dashboard counts: the item is asked for both ways at once. *)
Definition requested_types (d : Db) (itemId : uuid) : list RequestType :=
  r_type <$> filter (λ r, r_item_id r = itemId) (pending_requests d).

Definition conflicting (d : Db) (itemId : uuid) : Prop :=
  use ∈ requested_types d itemId ∧ return_ ∈ requested_types d itemId.

#[global] Instance conflicting_dec d itemId : Decision (conflicting d itemId).
Proof. unfold conflicting. apply _. Defined.

(** The world after a round trip that the store has answered. *)
Definition answered (w : World) : World :=
  {| db := db w; faults := tail (faults w); clock := S (clock w) |}.

(** What the two [reduce]s over the listing build, said per key: the
    listed requests of a key, the group they form, and the set of types
    asked of an item. *)
Definition requests_of_key (requests : list PendingRequestJoined)
    (key : uuid * RequestType) : list PendingRequestJoined :=
  filter (λ r, pendingRequestService.group_key r = key) requests.

Definition group_of (requests : list PendingRequestJoined)
    (key : uuid * RequestType) : pendingRequestService.RequestGroup :=
  {| pendingRequestService.g_item := head (requests_of_key requests key) ≫= j_item;
     pendingRequestService.g_type := key.2;
     pendingRequestService.g_requests := requests_of_key requests key |}.

Definition types_of (requests : list PendingRequestJoined) (itemId : uuid)
    : list RequestType :=
  new_Set ((λ r, r_type (j_row r)) <$>
             filter (λ r, r_item_id (j_row r) = itemId) requests).

(** ann holds the drill and asks to return it (request 101) while bob
    asks to use it (request 102). *)
Definition contested : World :=
  run drill_in_use [SubmitRequest (give_back ann); SubmitRequest (borrow bob)].

(** [status_changes P l l']: the rows of [l] are still in [l'], in place
    and under their ids, and a row whose status is no longer what it was
    has a status that [P] allows for its id; [l'] may hold more rows. *)
Definition status_changes (P : uuid → ItemStatus → Prop) (l l' : list Item)
    : Prop :=
  ∀ i it, l !! i = Some it →
    ∃ it', l' !! i = Some it'
           ∧ i_id it' = i_id it
           ∧ (i_status it' ≠ i_status it → P (i_id it) (i_status it')).

#[global] Instance status_changes_preorder P : PreOrder (status_changes P).
Proof.
  split.
  - intros l i it Hit. exists it. by split_and!.
  - intros l1 l2 l3 H12 H23 i it Hit.
    destruct (H12 i it Hit) as (it2 & Hit2 & Hid2 & Hst2).
    destruct (H23 i it2 Hit2) as (it3 & Hit3 & Hid3 & Hst3).
    exists it3. split_and!; [done|congruence|]. intros Hst.
    destruct (decide (i_status it3 = i_status it2)) as [Heq|Hne].
    + rewrite Heq. apply Hst2. congruence.
    + rewrite <-Hid2. by apply Hst3.
Qed.

(** The status an operation can give to the item of an id: an approval
    writes [used] or [available]; "Archive" and "Restore", when the
    button is there on the listed row, write [archived] and [available]
    to the item of the row's id; nothing else writes a status. *)
Definition writes (o : Op) (id : uuid) (status : ItemStatus) : Prop :=
  match o with
  | ApproveRequest _ _ => status = used ∨ status = available
  | Archive userRole _ item _ =>
      ItemList.archive_button userRole item = true
      ∧ id = i_id item ∧ status = archived
  | Restore userRole _ item _ =>
      ItemList.restore_button userRole item = true
      ∧ id = i_id item ∧ status = available
  | _ => False
  end.
(** * Reasoning about the embedding *)

Lemma bind_run {A B} (m : M A) (k : A → M B) (w : World) :
  (m ≫= k) w =
  match m w with
  | (w', inl e) => (w', inl e)
  | (w', inr a) => k a w'
  end.
Proof. reflexivity. Qed.

Lemma bind_resolves {A B} (m : M A) (k : A → M B) (w w' : World) (b : B) :
  (m ≫= k) w = (w', inr b) →
  ∃ w1 a, m w = (w1, inr a) ∧ k a w1 = (w', inr b).
Proof.
  rewrite bind_run. destruct (m w) as [w1 [e|a]]; [discriminate|].
  intros H. by exists w1, a.
Qed.

(** ** Frames: what a computation leaves alone, whatever its outcome *)
Section Frames.
Context {B : Type} (proj : Db → B).
Local Abbreviation untouched := (untouched proj).

Lemma untouched_ret {A} (a : A) : untouched (mret a).
Proof. by intros w. Qed.

Lemma untouched_throw {A} msg : untouched (@throw A msg).
Proof. by intros w. Qed.

Lemma untouched_get_db : untouched get_db.
Proof. by intros w. Qed.

Lemma untouched_current_time : untouched current_time.
Proof. by intros w. Qed.

Lemma untouched_round_trip : untouched round_trip.
Proof. intros w. unfold round_trip. by destruct (faults w). Qed.

Lemma untouched_fresh_uuid :
  (∀ d n, proj {| users := users d; items := items d;
                  pending_requests := pending_requests d;
                  histories := histories d; next_uuid := n |} = proj d) →
  untouched fresh_uuid.
Proof. intros H w. apply H. Qed.

Lemma untouched_modify_db f :
  (∀ d, proj (f d) = proj d) → untouched (modify_db f).
Proof. intros H w. apply H. Qed.

Lemma untouched_bind {A C} (m : M A) (k : A → M C) :
  untouched m → (∀ a, untouched (k a)) → untouched (m ≫= k).
Proof.
  intros Hm Hk w. rewrite bind_run. specialize (Hm w).
  destruct (m w) as [w1 [e|a]]; simpl in *; [done|].
  by rewrite Hk.
Qed.

Lemma untouched_for_of {A} (xs : list A) (body : A → M unit) :
  (∀ x, untouched (body x)) → untouched (for_of xs body).
Proof.
  intros Hb. induction xs as [|x xs IH]; simpl.
  - apply untouched_ret.
  - apply untouched_bind; [apply Hb | intros _; apply IH].
Qed.
End Frames.

(** ** Invariants: what a computation preserves, whatever its outcome *)
Lemma keeps_bind (P : Db → Prop) {A C} (m : M A) (k : A → M C) :
  keeps P m → (∀ a, keeps P (k a)) → keeps P (m ≫= k).
Proof.
  intros Hm Hk w HP. rewrite bind_run. specialize (Hm w HP).
  destruct (m w) as [w1 [e|a]]; simpl in *; [done|].
  by apply Hk.
Qed.

(** Unfolds the plumbing of [M] down to matches on the world. *)
Ltac unfold_M :=
  unfold mbind, M_bind, mret, M_ret, throw, get_db, modify_db, current_time,
    fresh_uuid, round_trip in *;
  simpl in *.

Create HintDb frame.

#[export] Hint Resolve untouched_ret untouched_throw untouched_get_db
  untouched_current_time untouched_round_trip : frame.

(** Walks down a computation: binds, matches and loops are split, the
    primitives are closed by their frame lemmas. *)
Ltac frame_step :=
  first
    [ apply untouched_bind; [ | intros ? ]
    | apply untouched_for_of; intros ?
    | apply untouched_ret
    | apply untouched_throw
    | apply untouched_get_db
    | apply untouched_current_time
    | apply untouched_round_trip
    | apply untouched_fresh_uuid; intros; reflexivity
    | apply untouched_modify_db; intros; reflexivity
    | match goal with
      | |- untouched _ (match ?x with _ => _ end) => destruct x
      end
    | solve [ eauto with frame ] ].

Ltac frame := repeat frame_step.

(** *** The history ledger only ever touches [histories] *)
Lemma createEntry_items entry : untouched items (historyService.createEntry entry).
Proof. unfold historyService.createEntry. frame. Qed.

Lemma createEntry_pending_requests entry :
  untouched pending_requests (historyService.createEntry entry).
Proof. unfold historyService.createEntry. frame. Qed.

Lemma createEntry_users entry : untouched users (historyService.createEntry entry).
Proof. unfold historyService.createEntry. frame. Qed.

#[export] Hint Resolve createEntry_items createEntry_pending_requests
  createEntry_users : frame.

(** *** What the services write *)

Lemma createEntry_run entry w w' r :
  historyService.createEntry entry w = (w', r) →
  (∃ msg, r = inl msg ∧ db w' = db w)
  ∨ (∃ h, r = inr h ∧ records entry h
          ∧ histories (db w') = histories (db w) ++ [h]).
Proof.
  unfold historyService.createEntry. rewrite bind_run.
  unfold round_trip. destruct (faults w) as [|[msg|] fs]; simpl.
  - intros [= <- <-]. right. eexists. split; [done|]. by repeat split.
  - intros [= <- <-]. left. by eexists.
  - intros [= <- <-]. right. eexists. split; [done|]. by repeat split.
Qed.

Lemma updateItemStatus_run id status changedBy ad w w' r :
  itemService.updateItemStatus id status changedBy ad w = (w', r) →
  (∃ msg, r = inl msg ∧ db w' = db w)
  ∨ (∃ it,
        item_by_id (db w) id = Some it
        ∧ let data :=
            itemService.apply_update
              (itemService.updateData_of status changedBy ad (clock w)) it in
          r = inr data
          ∧ db w' = with_items (db w)
                      ((λ x, if decide (i_id x = id) then data else x)
                         <$> items (db w))).
Proof.
  unfold itemService.updateItemStatus. unfold_M.
  destruct (faults w) as [|[msg|] fs]; simpl.
  - destruct (item_by_id (db w) id) as [it|] eqn:Hit; simpl.
    + intros [= <- <-]. right. by exists it.
    + intros [= <- <-]. left. by eexists.
  - intros [= <- <-]. left. by eexists.
  - destruct (item_by_id (db w) id) as [it|] eqn:Hit; simpl.
    + intros [= <- <-]. right. by exists it.
    + intros [= <- <-]. left. by eexists.
Qed.

Lemma updateItemStatus_pending_requests id status changedBy ad :
  untouched pending_requests (itemService.updateItemStatus id status changedBy ad).
Proof. unfold itemService.updateItemStatus. frame. Qed.

Lemma updateItemStatus_histories id status changedBy ad :
  untouched histories (itemService.updateItemStatus id status changedBy ad).
Proof. unfold itemService.updateItemStatus. frame. Qed.

Lemma updateItemStatus_users id status changedBy ad :
  untouched users (itemService.updateItemStatus id status changedBy ad).
Proof. unfold itemService.updateItemStatus. frame. Qed.

#[export] Hint Resolve updateItemStatus_pending_requests
  updateItemStatus_histories updateItemStatus_users : frame.

(** Rewriting the rows of one id leaves one row of that id. *)
Lemma filter_id_rewrite (id : nat) (data : Item) (l : list Item) :
  i_id data = id →
  filter (λ x, i_id x = id)
         ((λ x, if decide (i_id x = id) then data else x) <$> l)
  = (λ _, data) <$> filter (λ x, i_id x = id) l.
Proof.
  intros Hid. induction l as [|x l IH]; [done|].
  rewrite fmap_cons, !filter_cons. destruct (decide (i_id x = id)) as [Hx|Hx].
  - rewrite decide_True by done. by rewrite fmap_cons, IH.
  - by rewrite decide_False by done.
Qed.

Lemma item_by_id_rewritten d d' id it data :
  item_by_id d id = Some it →
  i_id data = id →
  items d' = (λ x, if decide (i_id x = id) then data else x) <$> items d →
  item_by_id d' id = Some data.
Proof.
  unfold item_by_id. intros Hit Hid ->. rewrite filter_id_rewrite by done.
  destruct (filter (λ x, i_id x = id) (items d)) as [|x [|y l]]; by simplify_eq/=.
Qed.

Lemma item_by_id_id d id it : item_by_id d id = Some it → i_id it = id.
Proof.
  unfold item_by_id. intros H.
  destruct (filter (λ x, i_id x = id) (items d)) as [|x [|y l]] eqn:Hf;
    simplify_eq/=.
  assert (it ∈ filter (λ x, i_id x = id) (items d)) as Hin
    by (rewrite Hf; apply list_elem_of_here).
  by apply list_elem_of_filter in Hin as [? _].
Qed.

Lemma item_by_id_elem_of d id it : item_by_id d id = Some it → it ∈ items d.
Proof.
  unfold item_by_id. intros H.
  destruct (filter (λ x, i_id x = id) (items d)) as [|x [|y l]] eqn:Hf;
    simplify_eq/=.
  assert (it ∈ filter (λ x, i_id x = id) (items d)) as Hin
    by (rewrite Hf; apply list_elem_of_here).
  by apply list_elem_of_filter in Hin as [_ ?].
Qed.

Lemma untouched_run {B} (proj : Db → B) {A} (m : M A) w w' r :
  untouched proj m → m w = (w', r) → proj (db w') = proj (db w).
Proof. intros H Hrun. specialize (H w). by rewrite Hrun in H. Qed.

Lemma select_request_run requestId w w' request :
  pendingRequestService.select_request requestId w = (w', inr (Some request)) →
  db w' = db w
  ∧ ∃ row,
      single (filter (λ r, r_id r = requestId) (pending_requests (db w))) = Some row
      ∧ request = join_request (db w) row.
Proof.
  unfold pendingRequestService.select_request. unfold_M.
  destruct (faults w) as [|[msg|] fs]; simpl; intros [= <- Hr]; (split; [done|]);
    try discriminate;
    destruct (single _) as [row|]; simplify_eq/=; by exists row.
Qed.

Lemma select_request_untouched {B} (proj : Db → B) requestId :
  untouched proj (pendingRequestService.select_request requestId).
Proof. unfold pendingRequestService.select_request. frame. Qed.

Lemma getPendingRequestsForItem_run itemId w w' all :
  pendingRequestService.getPendingRequestsForItem itemId w = (w', inr all) →
  db w' = db w
  ∧ all = join_request (db w) <$>
            merge_sort newer_first
              (filter (λ r, r_item_id r = itemId) (pending_requests (db w))).
Proof.
  unfold pendingRequestService.getPendingRequestsForItem. unfold_M.
  destruct (faults w) as [|[msg|] fs]; simpl; by intros [= <- <-].
Qed.

Lemma getPendingRequestsForItem_untouched {B} (proj : Db → B) itemId :
  untouched proj (pendingRequestService.getPendingRequestsForItem itemId).
Proof. unfold pendingRequestService.getPendingRequestsForItem. frame. Qed.

#[export] Hint Resolve select_request_untouched
  getPendingRequestsForItem_untouched : frame.

(** A loop of history entries that runs to its end has appended one row
    per entry, in order. *)
Lemma for_of_createEntry {A} (f : A → option historyService.CreateHistoryEntry)
    (body : A → M unit) (xs : list A) w w' :
  (∀ x, body x = match f x with
                 | Some e => historyService.createEntry e;; mret tt
                 | None => mret tt
                 end) →
  for_of xs body w = (w', inr tt) →
  ∃ hs, histories (db w') = histories (db w) ++ hs
        ∧ Forall2 records (omap f xs) hs.
Proof.
  intros Hbody. revert w. induction xs as [|x xs IH]; intros w; simpl.
  - intros [= <-]. exists []. by rewrite app_nil_r.
  - intros (w1 & [] & Hx & Hrest)%bind_resolves.
    apply IH in Hrest as (hs & Hhs & Hrec).
    rewrite Hbody in Hx. destruct (f x) as [e|].
    + apply bind_resolves in Hx as (w2 & h & He & [= ->]).
      apply createEntry_run in He as [(? & ? & _)|(h' & [= <-] & Hh & Hw1)];
        [done|].
      exists (h :: hs). rewrite Hhs, Hw1, <-app_assoc. split; [done|].
      by constructor.
    + injection Hx as <-. by exists hs.
Qed.

(** What an approval that resolves has done to the store. *)
Lemma approveRequest_resolved requestId approvedBy w w' :
  pendingRequestService.approveRequest requestId approvedBy w = (w', inr tt) →
  ∃ row item now hw hs,
    single (filter (λ r, r_id r = requestId) (pending_requests (db w))) = Some row
    ∧ item_by_id (db w) (r_item_id row) = Some item
    ∧ items (db w') =
        (λ x, if decide (i_id x = i_id item)
              then approved_item row approvedBy now item else x) <$> items (db w)
    ∧ histories (db w') = histories (db w) ++ hw :: hs
    ∧ records (approved_entry (join_request (db w) row) item approvedBy) hw
    ∧ Forall2 records
        (omap (auto_rejected_entry (join_request (db w) row) item approvedBy)
              (otherRequests (db w) requestId (r_item_id row)))
        hs
    ∧ pending_requests (db w') =
        filter (λ r, r_item_id r ≠ r_item_id row) (pending_requests (db w))
    ∧ users (db w') = users (db w).
Proof.
  unfold pendingRequestService.approveRequest.
  intros (w1 & request & Hsel & Hrest)%bind_resolves.
  destruct request as [request|]; [|discriminate].
  apply select_request_run in Hsel as (Hdb1 & row & Hrow & ->).
  simpl in Hrest.
  destruct (item_by_id (db w) (r_item_id row)) as [item|] eqn:Hitem;
    [|discriminate].
  apply bind_resolves in Hrest as (w2 & all & Hall & Hrest).
  apply getPendingRequestsForItem_run in Hall as (Hdb2 & ->).
  apply bind_resolves in Hrest as (w3 & data & Hupd & Hrest).
  apply bind_resolves in Hrest as (w4 & hw & Hhw & Hrest).
  apply bind_resolves in Hrest as (w5 & [] & Hloop & Hrest).
  pose proof (item_by_id_id _ _ _ Hitem) as Hid.
  (* 1. the item *)
  apply updateItemStatus_run in Hupd as [(? & ? & _)|(it & Hit & Hdata & Hdb3)];
    [done|].
  rewrite Hdb2, Hdb1, Hid, Hitem in Hit. injection Hit as <-.
  injection Hdata as ->.
  (* 2. the winner's entry *)
  pose proof (untouched_run items _ _ _ _ (createEntry_items _) Hhw) as Hi4.
  pose proof (untouched_run pending_requests _ _ _ _
                (createEntry_pending_requests _) Hhw) as Hp4.
  pose proof (untouched_run users _ _ _ _ (createEntry_users _) Hhw) as Hu4.
  apply createEntry_run in Hhw as [(? & ? & _)|(h & [= <-] & Hrec & Hh4)];
    [done|].
  (* 3. the losers' entries *)
  assert (items (db w5) = items (db w4)
          ∧ pending_requests (db w5) = pending_requests (db w4)
          ∧ users (db w5) = users (db w4)) as (Hi5 & Hp5 & Hu5).
  { repeat split;
      (eapply untouched_run; [|exact Hloop]);
      apply untouched_for_of; intros x; frame. }
  eapply (for_of_createEntry
            (auto_rejected_entry (join_request (db w) row) item approvedBy))
    in Hloop as (hs & Hh5 & Hrecs).
  2:{ intros x. unfold auto_rejected_entry.
      by destruct (j_requested_by_user x). }
  (* 4. the queue *)
  revert Hrest. unfold_M.
  destruct (faults w5) as [|[msg|] fs]; simpl; intros [= <-]; simpl;
    exists row, item, (clock w2), hw, hs;
    rewrite Hi5, Hi4, Hp5, Hp4, Hu5, Hu4, Hh5, Hh4, Hdb3, Hdb2, Hdb1; simpl;
    rewrite Hid, <-app_assoc; simpl;
    rewrite Hdb1 in Hrecs;
    done.
Qed.

Lemma single_filter_elem_of {A} (P : A → Prop) `{!∀ x, Decision (P x)}
    (l : list A) (x : A) :
  single (filter P l) = Some x → x ∈ l ∧ P x.
Proof.
  intros Hs. destruct (filter P l) as [|y [|z k]] eqn:Hf; simplify_eq/=.
  assert (x ∈ filter P l) as Hin by (rewrite Hf; apply list_elem_of_here).
  apply list_elem_of_filter in Hin. tauto.
Qed.

Lemma filter_none {A} (P : A → Prop) `{!∀ x, Decision (P x)} (l : list A) :
  (∀ x, x ∈ l → ¬ P x) → filter P l = [].
Proof.
  induction l as [|x l IH]; intros Hl; [done|].
  rewrite filter_cons_False by (apply Hl; left).
  apply IH. intros y Hy. apply Hl. by right.
Qed.

Lemma filter_fmap {A B} (f : A → B) (P : B → Prop) `{!∀ y, Decision (P y)}
    (l : list A) :
  filter P (f <$> l) = f <$> filter (λ x, P (f x)) l.
Proof.
  induction l as [|x l IH]; [done|].
  rewrite fmap_cons, !filter_cons. case_decide; by rewrite ?fmap_cons, IH.
Qed.

(** The losers are the other requests of the item, each as often as the
    queue holds it. *)
Lemma otherRequests_rows d requestId itemId :
  j_row <$> otherRequests d requestId itemId
  ≡ₚ filter (λ r, r_item_id r = itemId ∧ r_id r ≠ requestId) (pending_requests d).
Proof.
  unfold otherRequests. rewrite filter_fmap, <-list_fmap_compose.
  rewrite (list_fmap_ext (j_row ∘ join_request d) id) by done.
  rewrite list_fmap_id. simpl.
  rewrite merge_sort_Permutation, list_filter_filter.
  erewrite list_filter_iff; [done|]. intros r. simpl. tauto.
Qed.

Lemma otherRequests_joined d requestId itemId x :
  x ∈ otherRequests d requestId itemId →
  ∃ r, r ∈ pending_requests d ∧ x = join_request d r.
Proof.
  unfold otherRequests.
  intros [_ (r & -> & Hr)%list_elem_of_fmap]%list_elem_of_filter.
  rewrite merge_sort_Permutation in Hr.
  apply list_elem_of_filter in Hr as [_ Hr]. by exists r.
Qed.

Lemma Forall2_omap_total {A B E H} (f : A → option E) (g : A → B)
    (R : E → H → Prop) (Q : B → H → Prop) (xs : list A) (hs : list H) :
  (∀ x, x ∈ xs → ∃ e, f x = Some e ∧ ∀ h, R e h → Q (g x) h) →
  Forall2 R (omap f xs) hs →
  Forall2 Q (g <$> xs) hs.
Proof.
  revert hs. induction xs as [|x xs IH]; intros hs Hf; simpl.
  - by intros ->%Forall2_nil_inv_l.
  - destruct (Hf x) as (e & He & HQ); [left|].
    rewrite He. intros (h & hs' & Hh & Hrest & ->)%Forall2_cons_inv_l.
    constructor; [by apply HQ|]. apply IH; [|done].
    intros y Hy. apply Hf. by right.
Qed.

Lemma or_null_text (s t : string) (c : Ascii.ascii) :
  or_null (Some (String c s +:+ t)) = Some (String c s +:+ t).
Proof. done. Qed.

(** *** Submitting a request *)

Lemma hasUserPendingRequest_untouched {B} (proj : Db → B) itemId userId actionType :
  untouched proj (itemService.hasUserPendingRequest itemId userId actionType).
Proof. unfold itemService.hasUserPendingRequest. frame. Qed.

Lemma getItemById_untouched {B} (proj : Db → B) id :
  untouched proj (itemService.getItemById id).
Proof. unfold itemService.getItemById. frame. Qed.

#[export] Hint Resolve hasUserPendingRequest_untouched getItemById_untouched
  : frame.

Lemma validateReturnRequest_untouched {B} (proj : Db → B) itemId userId :
  untouched proj (itemService.validateReturnRequest itemId userId).
Proof. unfold itemService.validateReturnRequest. frame. Qed.

#[export] Hint Resolve validateReturnRequest_untouched : frame.

Lemma createRequest_items p : untouched items (pendingRequestService.createRequest p).
Proof. unfold pendingRequestService.createRequest. frame. Qed.

Lemma createRequest_histories p :
  untouched histories (pendingRequestService.createRequest p).
Proof. unfold pendingRequestService.createRequest. frame. Qed.

Lemma createRequest_users p : untouched users (pendingRequestService.createRequest p).
Proof. unfold pendingRequestService.createRequest. frame. Qed.

#[export] Hint Resolve createRequest_items createRequest_histories
  createRequest_users : frame.

Lemma createRequest_run p w w' r :
  pendingRequestService.createRequest p w = (w', r) →
  (∃ msg, r = inl msg ∧ db w' = db w)
  ∨ (∃ data,
        r = inr data
        ∧ request_key data = params_key p
        ∧ pending_requests (db w') = pending_requests (db w) ++ [data]
        ∧ items (db w') = items (db w)
        ∧ users (db w') = users (db w)
        ∧ histories (db w') = histories (db w)
        ∧ (hd None (faults w) = None →
           single (filter (λ r, r_item_id r = pendingRequestService.item_id p
                                ∧ r_requested_by r = pendingRequestService.requested_by p
                                ∧ r_type r = pendingRequestService.action_type p)
                     (pending_requests (db w))) = None)
        ∧ (pendingRequestService.action_type p = return_ →
           may_return (db w) (pendingRequestService.item_id p)
             (pendingRequestService.requested_by p))).
Proof.
  unfold pendingRequestService.createRequest, itemService.hasUserPendingRequest,
    itemService.validateReturnRequest, itemService.getItemById, may_return.
  unfold_M. intros Hrun.
  repeat (case_match; simplify_eq/=);
    try (left; eexists; split; [done|done]);
    right; eexists; (split; [done|]); split_and!; try done.
  all: intros _.
  all: try match goal with
           | H : bool_decide (is_Some ?x) = false |- ?x = None =>
               apply bool_decide_eq_false in H; by apply eq_None_not_Some
           end.
  all: destruct (item_by_id (db w) (pendingRequestService.item_id p))
         as [it|] eqn:Hit; simplify_eq/=.
  all: exists it; split_and!; [done|by apply dec_stable..].
Qed.

(** *** The page handlers *)

Lemma onSubmit_pending_requests userId data :
  untouched pending_requests (AddItem.onSubmit userId data).
Proof. unfold AddItem.onSubmit, itemService.createItem. frame. Qed.

Lemma confirmArchive_pending_requests selectedItem userId reason :
  untouched pending_requests (ItemList.confirmArchive selectedItem userId reason).
Proof. unfold ItemList.confirmArchive. frame. Qed.

Lemma confirmUnarchive_pending_requests selectedItem userId reason :
  untouched pending_requests (ItemList.confirmUnarchive selectedItem userId reason).
Proof. unfold ItemList.confirmUnarchive. frame. Qed.

Lemma handleBorrowReturn_items u prs rq item :
  untouched items (ItemList.handleBorrowReturn u prs rq item).
Proof. unfold ItemList.handleBorrowReturn. cbv zeta. frame. Qed.

Lemma rejectRequest_items requestId rejectedBy :
  untouched items (pendingRequestService.rejectRequest requestId rejectedBy).
Proof.
  unfold pendingRequestService.rejectRequest, pendingRequestService.deleteRequest.
  frame.
Qed.

(** A submission from the list either stops before any round trip, or is
    [createRequest] followed by its history entry. *)
Lemma handleBorrowReturn_cases u prs rq item w :
  (∃ r, ItemList.handleBorrowReturn u prs rq item w = (w, r)
        ∧ (i_id item ∉ rq → ∃ msg, r = inl msg))
  ∨ (∃ userId entry,
        (i_status item = available ∨ i_status item = used)
        ∧ ItemList.handleBorrowReturn u prs rq item w
          = (pendingRequestService.createRequest
               {| pendingRequestService.item_id := i_id item;
                  pendingRequestService.requested_by := userId;
                  pendingRequestService.action_type :=
                    if decide (i_status item = available) then use else return_ |}
             ≫= λ _, historyService.createEntry entry ≫= λ _, mret tt) w).
Proof.
  unfold ItemList.handleBorrowReturn. destruct u as [userId|].
  2:{ left. eexists. split; [done|]. eauto. }
  case_decide as Hused.
  { left. eexists. split; [done|]. eauto. }
  case_decide as Hrq.
  { left. eexists. split; [done|]. done. }
  destruct (ItemList.hasUserPendingRequest _ _ _ _).
  { left. eexists. split; [done|]. eauto. }
  cbv zeta.
  destruct (i_status item) eqn:Hst;
    try (left; eexists; split; [done|]; by eauto);
    right; eexists _, _; (split; [eauto|]); done.
Qed.

Lemma submit_pending_requests p entry w :
  let w' := ((pendingRequestService.createRequest p
              ≫= λ _, historyService.createEntry entry ≫= λ _, mret tt) w).1 in
  pending_requests (db w') = pending_requests (db w)
  ∨ ∃ data,
      request_key data = params_key p
      ∧ pending_requests (db w') = pending_requests (db w) ++ [data]
      ∧ (hd None (faults w) = None →
         single (filter (λ r, r_item_id r = pendingRequestService.item_id p
                              ∧ r_requested_by r = pendingRequestService.requested_by p
                              ∧ r_type r = pendingRequestService.action_type p)
                   (pending_requests (db w))) = None).
Proof.
  simpl. rewrite bind_run.
  destruct (pendingRequestService.createRequest p w) as [w1 r] eqn:Hrun.
  apply createRequest_run in Hrun
    as [(msg & -> & Hdb)|(data & -> & Hkey & Hp & _ & _ & _ & Hcheck & _)].
  - left. simpl. by rewrite Hdb.
  - right. exists data. split_and!; [done| |done].
    assert (untouched pending_requests
              (historyService.createEntry entry ≫= λ _, mret tt)) as Hframe
      by frame.
    rewrite <-Hp. apply Hframe.
Qed.

(** *** One open request per tuple *)

Lemma NoDup_fmap_filter {A K} (f : A → K) (P : A → Prop)
    `{!∀ x, Decision (P x)} (l : list A) :
  NoDup (f <$> l) → NoDup (f <$> filter P l).
Proof.
  induction l as [|x l IH]; [done|].
  rewrite fmap_cons, NoDup_cons. intros [Hx Hl]. rewrite filter_cons.
  case_decide; [|by apply IH].
  rewrite fmap_cons. apply NoDup_cons. split; [|by apply IH].
  intros (y & Hy & [_ Hin]%list_elem_of_filter)%list_elem_of_fmap.
  apply Hx, list_elem_of_fmap. by exists y.
Qed.

Lemma NoDup_key_filter {A K} `{!EqDecision K} (f : A → K) (k : K) (l : list A) :
  NoDup (f <$> l) →
  ∀ x, x ∈ l → f x = k → filter (λ y, f y = k) l = [x].
Proof.
  induction l as [|a l IH]; intros Hnd x Hx Hk; [by apply elem_of_nil in Hx|].
  rewrite fmap_cons, NoDup_cons in Hnd. destruct Hnd as [Ha Hl].
  apply elem_of_cons in Hx as [->|Hx].
  - rewrite filter_cons_True by done. f_equal.
    apply filter_none. intros y Hy Hfy. apply Ha, list_elem_of_fmap.
    exists y. split; [congruence|done].
  - rewrite filter_cons_False; [by apply IH|].
    intros Hfa. apply Ha, list_elem_of_fmap. exists x. split; [congruence|done].
Qed.

Lemma filter_request_key p (l : list PendingRequest) :
  filter (λ r, r_item_id r = pendingRequestService.item_id p
               ∧ r_requested_by r = pendingRequestService.requested_by p
               ∧ r_type r = pendingRequestService.action_type p) l
  = filter (λ r, request_key r = params_key p) l.
Proof.
  apply list_filter_iff. intros r. unfold request_key, params_key.
  split; [intros (-> & -> & ->); done|intros [= -> -> ->]; done].
Qed.

(** A request appended after the duplicate check found nothing keeps the
    tuples distinct. *)
Lemma at_most_one_open_append d d' p data :
  at_most_one_open d →
  request_key data = params_key p →
  pending_requests d' = pending_requests d ++ [data] →
  single (filter (λ r, r_item_id r = pendingRequestService.item_id p
                       ∧ r_requested_by r = pendingRequestService.requested_by p
                       ∧ r_type r = pendingRequestService.action_type p)
            (pending_requests d)) = None →
  at_most_one_open d'.
Proof.
  unfold at_most_one_open. intros Hnd Hkey -> Hnone.
  rewrite fmap_app. apply NoDup_app. split_and!; [done| |apply NoDup_singleton].
  intros k (r & -> & Hr)%list_elem_of_fmap Hk. simpl in Hk.
  apply list_elem_of_singleton in Hk.
  rewrite filter_request_key in Hnone.
  rewrite (NoDup_key_filter request_key _ _ Hnd r) in Hnone; [done..|congruence].
Qed.

Lemma keeps_pending_untouched {A} (m : M A) :
  untouched pending_requests m → keeps at_most_one_open m.
Proof. intros H w. unfold at_most_one_open. by rewrite H. Qed.

Lemma keeps_filter_pending (P : PendingRequest → Prop) `{!∀ x, Decision (P x)} :
  keeps at_most_one_open
    (modify_db (λ d, with_pending_requests d (filter P (pending_requests d)))).
Proof. intros w. unfold at_most_one_open. simpl. apply NoDup_fmap_filter. Qed.

(** Splits a computation into the parts that leave the queue alone and
    the deletes. *)
Ltac keeps_queue :=
  repeat first
    [ apply keeps_pending_untouched; solve [frame]
    | apply keeps_filter_pending
    | apply keeps_bind; [ | intros ? ]
    | match goal with
      | |- keeps _ (match ?x with _ => _ end) => destruct x
      end ].

Lemma approveRequest_at_most_one_open requestId approvedBy :
  keeps at_most_one_open (pendingRequestService.approveRequest requestId approvedBy).
Proof. unfold pendingRequestService.approveRequest. keeps_queue. Qed.

Lemma rejectRequest_at_most_one_open requestId rejectedBy :
  keeps at_most_one_open (pendingRequestService.rejectRequest requestId rejectedBy).
Proof.
  unfold pendingRequestService.rejectRequest, pendingRequestService.deleteRequest.
  keeps_queue.
Qed.

Lemma createRequest_at_most_one_open p w :
  at_most_one_open (db w) →
  hd None (faults w) = None →
  at_most_one_open (db (pendingRequestService.createRequest p w).1).
Proof.
  intros Hinv Hcheck.
  destruct (pendingRequestService.createRequest p w) as [w' r] eqn:Hrun.
  apply createRequest_run in Hrun
    as [(msg & -> & Hdb)|(data & -> & Hkey & Hp & _ & _ & _ & Hnone & _)]; simpl.
  - by rewrite Hdb.
  - eapply at_most_one_open_append; eauto.
Qed.

Lemma handleBorrowReturn_at_most_one_open u prs rq item w :
  at_most_one_open (db w) →
  hd None (faults w) = None →
  at_most_one_open (db (ItemList.handleBorrowReturn u prs rq item w).1).
Proof.
  intros Hinv Hcheck.
  destruct (handleBorrowReturn_cases u prs rq item w)
    as [(r & -> & _)|(userId & entry & _ & ->)]; [done|].
  match goal with
  | |- context [ (pendingRequestService.createRequest ?p ≫= _) w ] =>
      destruct (submit_pending_requests p entry w)
        as [Hp|(data & Hkey & Hp & Hnone)]
  end; simpl in Hp.
  - unfold at_most_one_open. by rewrite Hp.
  - eapply at_most_one_open_append; eauto.
Qed.

Lemma step_at_most_one_open w o :
  at_most_one_open (db w) →
  (submits o = true → hd None (faults w) = None) →
  at_most_one_open (db (step w o)).
Proof.
  intros Hinv Hcheck. unfold step. destruct o; simpl in *.
  - by apply keeps_pending_untouched; [apply onSubmit_pending_requests|].
  - rewrite bind_run.
    pose proof (createRequest_at_most_one_open params w Hinv (Hcheck eq_refl)).
    by destruct (pendingRequestService.createRequest params w) as [? [?|?]].
  - by apply handleBorrowReturn_at_most_one_open; [|apply Hcheck].
  - by apply approveRequest_at_most_one_open.
  - by apply rejectRequest_at_most_one_open.
  - apply keeps_pending_untouched; [|done]. unfold ItemList.archive.
    destruct (ItemList.archive_button _ _);
      [apply confirmArchive_pending_requests|frame].
  - apply keeps_pending_untouched; [|done]. unfold ItemList.restore.
    destruct (ItemList.restore_button _ _);
      [apply confirmUnarchive_pending_requests|frame].
Qed.

Lemma run_at_most_one_open w ops :
  at_most_one_open (db w) →
  checks_answered w ops →
  at_most_one_open (db (run w ops)).
Proof.
  revert w. induction ops as [|o ops IH]; intros w Hinv Hchecks; [done|].
  destruct Hchecks as [Hcheck Hrest]. simpl.
  apply IH; [|done]. by apply step_at_most_one_open.
Qed.

(** *** Borrower and status *)

Lemma keeps_items_untouched {A} (m : M A) :
  untouched items m → keeps used_iff_borrower m.
Proof. intros H w. unfold used_iff_borrower. by rewrite H. Qed.

Lemma item_by_id_items d d' id :
  items d' = items d → item_by_id d' id = item_by_id d id.
Proof. unfold item_by_id. by intros ->. Qed.

(** An update keeps the invariant when the row it writes satisfies it. *)
Lemma updateItemStatus_used_iff id status changedBy ad w :
  used_iff_borrower (db w) →
  (∀ it, item_by_id (db w) id = Some it →
         status = used
         ↔ is_Some (default (i_last_used_by it) (ad ≫= itemService.last_used_by))) →
  used_iff_borrower (db (itemService.updateItemStatus id status changedBy ad w).1).
Proof.
  intros Hinv Hdata.
  destruct (itemService.updateItemStatus id status changedBy ad w)
    as [w' r] eqn:Hrun.
  apply updateItemStatus_run in Hrun as [(msg & -> & Hdb)|(it & Hit & -> & Hdb)];
    simpl; rewrite Hdb; [done|].
  unfold used_iff_borrower in *. simpl. apply Forall_fmap.
  eapply Forall_impl; [exact Hinv|]. intros x Hx. simpl.
  case_decide; [|done]. simpl. by apply Hdata.
Qed.

Lemma createItem_used_iff itemData changedBy :
  keeps used_iff_borrower (itemService.createItem itemData changedBy).
Proof.
  intros w Hinv. unfold itemService.createItem. unfold_M.
  repeat case_match; simplify_eq/=; try done.
  all: unfold used_iff_borrower in *; simpl; apply Forall_app; split; [done|].
  all: apply Forall_singleton; simpl; split; [done|by intros []].
Qed.

Lemma onSubmit_used_iff userId data :
  keeps used_iff_borrower (AddItem.onSubmit userId data).
Proof.
  unfold AddItem.onSubmit. destruct userId as [userId|].
  - apply keeps_bind; [apply createItem_used_iff|]. intros newItem.
    apply keeps_items_untouched. frame.
  - apply keeps_items_untouched. frame.
Qed.

Lemma approveRequest_used_iff requestId approvedBy :
  keeps used_iff_borrower (pendingRequestService.approveRequest requestId approvedBy).
Proof.
  unfold pendingRequestService.approveRequest.
  apply keeps_bind; [apply keeps_items_untouched; frame|].
  intros [request|]; [|apply keeps_items_untouched; frame].
  destruct (j_item request) as [item|]; [|apply keeps_items_untouched; frame].
  apply keeps_bind; [apply keeps_items_untouched; frame|]. intros all.
  apply keeps_bind; [|intros _; apply keeps_items_untouched; frame].
  intros w Hinv. apply updateItemStatus_used_iff; [done|].
  intros it _. simpl.
  destruct (r_type (j_row request)); simpl; split; try done; by intros [].
Qed.

Lemma confirmUnarchive_used_iff selectedItem userId reason :
  keeps used_iff_borrower (ItemList.confirmUnarchive selectedItem userId reason).
Proof.
  unfold ItemList.confirmUnarchive.
  destruct selectedItem as [selectedItem|]; [|apply keeps_items_untouched; frame].
  destruct userId as [userId|]; [|apply keeps_items_untouched; frame].
  apply keeps_bind; [|intros _; apply keeps_items_untouched; frame].
  intros w Hinv. apply updateItemStatus_used_iff; [done|].
  intros it _. simpl. split; [done|by intros []].
Qed.

(** Archiving keeps the invariant when the stored item is not used. *)
Lemma confirmArchive_used_iff selectedItem userId reason w :
  used_iff_borrower (db w) →
  (∀ it, it ∈ items (db w) → i_id it = i_id selectedItem → i_status it ≠ used) →
  used_iff_borrower
    (db (ItemList.confirmArchive (Some selectedItem) userId reason w).1).
Proof.
  intros Hinv Hfree. unfold ItemList.confirmArchive.
  destruct userId as [userId|]; [|done]. rewrite bind_run.
  match goal with
  | |- context [ itemService.updateItemStatus ?id ?st ?by_ ?ad w ] =>
      pose proof (updateItemStatus_used_iff id st by_ ad w Hinv) as Hupd;
      destruct (itemService.updateItemStatus id st by_ ad w) as [w1 [e|a]]
  end; simpl in *.
  - apply Hupd. intros it Hit. split; [done|]. intros Hby.
    destruct (Hfree it); [by eapply item_by_id_elem_of|by eapply item_by_id_id|].
    unfold used_iff_borrower in Hinv. rewrite Forall_forall in Hinv.
    apply Hinv; [by eapply item_by_id_elem_of|done].
  - assert (keeps used_iff_borrower
              (historyService.createEntry
                 {| historyService.item_id := i_id selectedItem;
                    historyService.action := act_archived;
                    historyService.performed_by := userId;
                    historyService.details := Some ("Item archived: " +:+ reason);
                    historyService.previous_status := Some (i_status selectedItem);
                    historyService.new_status := Some archived |}
               ≫= λ _, mret tt)) as Hrest
      by (apply keeps_items_untouched; frame).
    apply Hrest, Hupd. intros it Hit. split; [done|]. intros Hby.
    destruct (Hfree it); [by eapply item_by_id_elem_of|by eapply item_by_id_id|].
    unfold used_iff_borrower in Hinv. rewrite Forall_forall in Hinv.
    apply Hinv; [by eapply item_by_id_elem_of|done].
Qed.

Lemma archive_button_true role item :
  ItemList.archive_button role item = true →
  role = Some admin ∧ i_status item ≠ archived ∧ i_status item ≠ used.
Proof.
  unfold ItemList.archive_button.
  intros [[Hr Ha%negb_true_iff]%andb_true_iff Hu]%andb_true_iff.
  apply bool_decide_eq_true in Hr, Hu. apply bool_decide_eq_false in Ha. done.
Qed.

Lemma step_used_iff w o :
  used_iff_borrower (db w) →
  match o with
  | Archive _ _ item _ => listing_current (db w) item
  | _ => True
  end →
  used_iff_borrower (db (step w o)).
Proof.
  intros Hinv Hcurrent. unfold step. destruct o; simpl.
  - by apply onSubmit_used_iff.
  - apply keeps_items_untouched; [frame|done].
  - by apply keeps_items_untouched; [apply handleBorrowReturn_items|].
  - by apply approveRequest_used_iff.
  - by apply keeps_items_untouched; [apply rejectRequest_items|].
  - unfold ItemList.archive.
    destruct (ItemList.archive_button userRole item) eqn:Hbutton; [|done].
    apply archive_button_true in Hbutton as (_ & _ & Hfree).
    apply confirmArchive_used_iff; [done|].
    intros it Hit Hid. by rewrite (Hcurrent it Hit Hid).
  - unfold ItemList.restore.
    destruct (ItemList.restore_button userRole item); [|done].
    by apply confirmUnarchive_used_iff.
Qed.

Lemma run_used_iff w ops :
  used_iff_borrower (db w) →
  archives_current w ops →
  used_iff_borrower (db (run w ops)).
Proof.
  revert w. induction ops as [|o ops IH]; intros w Hinv Hcur; [done|].
  destruct Hcur as [Hcurrent Hrest]. simpl.
  apply IH; [|done]. by apply step_used_iff.
Qed.

(** An update followed by its history entry, when both go through. *)
Lemma update_then_entry_resolved id status changedBy ad entry w w' :
  (itemService.updateItemStatus id status changedBy ad
   ≫= λ _, historyService.createEntry entry ≫= λ _, mret tt) w = (w', inr tt) →
  ∃ it,
    item_by_id (db w) id = Some it
    ∧ item_by_id (db w') id
      = Some (itemService.apply_update
                (itemService.updateData_of status changedBy ad (clock w)) it).
Proof.
  intros (w1 & data & Hupd & Hrest)%bind_resolves.
  apply updateItemStatus_run in Hupd as [(? & ? & _)|(it & Hit & _ & Hdb)];
    [done|].
  exists it. split; [done|].
  assert (items (db w') = items (db w1)) as Hitems.
  { eapply untouched_run; [|exact Hrest]. frame. }
  rewrite (item_by_id_items _ _ _ Hitems).
  eapply item_by_id_rewritten; [exact Hit| |by rewrite Hdb].
  simpl. by eapply item_by_id_id.
Qed.

(** *** When the store answers

    With no failing round trip ahead, each service call resolves, and none
    is ahead afterwards. *)

Lemma bind_resolved {A B} (m : M A) (k : A → M B) w w1 a :
  m w = (w1, inr a) → (m ≫= k) w = k a w1.
Proof. intros H. by rewrite bind_run, H. Qed.

Lemma select_request_answers requestId w :
  faults w = [] →
  ∃ w1,
    pendingRequestService.select_request requestId w
    = (w1, inr (join_request (db w) <$>
                  single (filter (λ r, r_id r = requestId)
                            (pending_requests (db w)))))
    ∧ faults w1 = [] ∧ db w1 = db w.
Proof.
  intros Hf. unfold pendingRequestService.select_request. unfold_M.
  rewrite Hf. by eexists.
Qed.

Lemma getPendingRequestsForItem_answers itemId w :
  faults w = [] →
  ∃ w1 all,
    pendingRequestService.getPendingRequestsForItem itemId w = (w1, inr all)
    ∧ faults w1 = [] ∧ db w1 = db w.
Proof.
  intros Hf. unfold pendingRequestService.getPendingRequestsForItem. unfold_M.
  rewrite Hf. by eexists _, _.
Qed.

Lemma updateItemStatus_answers id status changedBy ad w it :
  faults w = [] →
  item_by_id (db w) id = Some it →
  ∃ w1 data,
    itemService.updateItemStatus id status changedBy ad w = (w1, inr data)
    ∧ faults w1 = [].
Proof.
  intros Hf Hit. unfold itemService.updateItemStatus. unfold_M.
  rewrite Hf. simpl. rewrite Hit. by eexists _, _.
Qed.

Lemma createEntry_answers entry w :
  faults w = [] →
  ∃ w1 h, historyService.createEntry entry w = (w1, inr h) ∧ faults w1 = [].
Proof.
  intros Hf. unfold historyService.createEntry. unfold_M.
  rewrite Hf. by eexists _, _.
Qed.

Lemma for_of_answers {A} (xs : list A) (body : A → M unit) w :
  (∀ x w, faults w = [] → ∃ w1, body x w = (w1, inr tt) ∧ faults w1 = []) →
  faults w = [] →
  ∃ w1, for_of xs body w = (w1, inr tt) ∧ faults w1 = [].
Proof.
  intros Hbody. revert w. induction xs as [|x xs IH]; intros w Hf; simpl.
  - by exists w.
  - destruct (Hbody x w Hf) as (w1 & Hx & Hf1).
    rewrite (bind_resolved _ _ _ _ _ Hx). by apply IH.
Qed.

(** An approval resolves when the store answers, the request is open and
    its item exists. *)
Lemma approveRequest_resolves requestId approvedBy w row item :
  faults w = [] →
  single (filter (λ r, r_id r = requestId) (pending_requests (db w))) = Some row →
  item_by_id (db w) (r_item_id row) = Some item →
  (pendingRequestService.approveRequest requestId approvedBy w).2 = inr tt.
Proof.
  intros Hf Hrow Hitem. unfold pendingRequestService.approveRequest.
  destruct (select_request_answers requestId w Hf) as (w1 & Hsel & Hf1 & Hdb1).
  rewrite (bind_resolved _ _ _ _ _ Hsel), Hrow. simpl. rewrite Hitem.
  destruct (getPendingRequestsForItem_answers (r_item_id row) w1 Hf1)
    as (w2 & all & Hall & Hf2 & Hdb2).
  rewrite (bind_resolved _ _ _ _ _ Hall).
  edestruct (updateItemStatus_answers (i_id item)) as (w3 & data & Hupd & Hf3);
    [exact Hf2| |rewrite (bind_resolved _ _ _ _ _ Hupd)].
  { rewrite Hdb2, Hdb1, (item_by_id_id _ _ _ Hitem). exact Hitem. }
  edestruct createEntry_answers as (w4 & hw & Hhw & Hf4);
    [exact Hf3|rewrite (bind_resolved _ _ _ _ _ Hhw)].
  match goal with
  | |- context [ for_of ?xs ?body ] =>
      destruct (for_of_answers xs body w4) as (w5 & Hloop & Hf5); [|exact Hf4|]
  end.
  { intros x v Hv.
    destruct (j_requested_by_user x); [|exists v; split; [reflexivity|done]].
    edestruct createEntry_answers as (v1 & h & Hh & Hv1); [exact Hv|].
    rewrite (bind_resolved _ _ _ _ _ Hh). exists v1. split; [reflexivity|done]. }
  rewrite (bind_resolved _ _ _ _ _ Hloop).
  unfold_M. by rewrite Hf5.
Qed.

(** An update of an existing item and its history entry resolve when the
    store answers. *)
Lemma update_then_entry_resolves id status changedBy ad entry w it :
  faults w = [] →
  item_by_id (db w) id = Some it →
  ∃ w',
    (itemService.updateItemStatus id status changedBy ad
     ≫= λ _, historyService.createEntry entry ≫= λ _, mret tt) w = (w', inr tt)
    ∧ faults w' = [].
Proof.
  intros Hf Hit.
  destruct (updateItemStatus_answers id status changedBy ad w it Hf Hit)
    as (w1 & data & Hupd & Hf1).
  destruct (createEntry_answers entry w1 Hf1) as (w2 & h & Hh & Hf2).
  exists w2. by rewrite (bind_resolved _ _ _ _ _ Hupd), (bind_resolved _ _ _ _ _ Hh).
Qed.

(** Archiving an existing item and restoring it both resolve when the
    store answers and a user is signed in. *)
Lemma archive_then_restore_resolves selectedItem userId reason userId' reason' w it :
  faults w = [] →
  item_by_id (db w) (i_id selectedItem) = Some it →
  ∃ w1 w2,
    ItemList.confirmArchive (Some selectedItem) (Some userId) reason w
    = (w1, inr tt)
    ∧ ItemList.confirmUnarchive (Some selectedItem) (Some userId') reason' w1
      = (w2, inr tt).
Proof.
  intros Hf Hit. unfold ItemList.confirmArchive, ItemList.confirmUnarchive.
  edestruct update_then_entry_resolves as (w1 & Harchive & Hf1); [exact Hf|exact Hit|].
  pose proof Harchive as (it0 & _ & Hit1)%update_then_entry_resolved.
  edestruct update_then_entry_resolves as (w2 & Hrestore & _);
    [exact Hf1|exact Hit1|].
  exists w1, w2. split; [exact Harchive|exact Hrestore].
Qed.

(** ** How the tables evolve *)

Lemma evolves_untouched {B} (proj : Db → B) (R : relation B) `{!Reflexive R}
    {A} (m : M A) :
  untouched proj m → evolves proj R m.
Proof. intros H w. by rewrite H. Qed.

Lemma evolves_bind {B} (proj : Db → B) (R : relation B) `{!Transitive R}
    {A C} (m : M A) (k : A → M C) :
  evolves proj R m → (∀ a, evolves proj R (k a)) → evolves proj R (m ≫= k).
Proof.
  intros Hm Hk w. rewrite bind_run. specialize (Hm w).
  destruct (m w) as [w1 [e|a]]; simpl in *; [done|].
  etrans; [exact Hm|apply Hk].
Qed.

Lemma evolves_modify_db {B} (proj : Db → B) (R : relation B) f :
  (∀ d, R (proj d) (proj (f d))) → evolves proj R (modify_db f).
Proof. intros H w. apply H. Qed.

Lemma evolves_for_of {B} (proj : Db → B) (R : relation B) `{!PreOrder R}
    {A} (xs : list A) (body : A → M unit) :
  (∀ x, evolves proj R (body x)) → evolves proj R (for_of xs body).
Proof.
  intros Hb. induction xs as [|x xs IH]; simpl.
  - by intros w.
  - apply evolves_bind; [apply _|apply Hb|intros _; apply IH].
Qed.

Lemma evolves_run {B} (proj : Db → B) (R : relation B) `{!PreOrder R} w ops :
  (∀ o, evolves proj R (perform o)) →
  R (proj (db w)) (proj (db (run w ops))).
Proof.
  intros Hstep. revert w. induction ops as [|o ops IH]; intros w; [done|].
  simpl. etrans; [apply (Hstep o w)|apply IH].
Qed.

(** Walks down a computation for [evolves]: parts that leave the table
    alone are closed by their frames, writes by [tac]. *)
Ltac evolve_with tac :=
  repeat first
    [ apply evolves_untouched; [apply _|solve [frame]]
    | solve [tac]
    | apply evolves_bind; [apply _| |intros ?]
    | apply evolves_for_of; [apply _|intros ?]
    | apply evolves_modify_db; intros ?; simpl; solve [tac]
    | match goal with
      | |- evolves _ _ (match ?x with _ => _ end) => destruct x
      end ].

(** ** Which operation writes which status *)

Lemma updateItemStatus_status_changes (P : nat → ItemStatus → Prop)
    id status changedBy ad :
  P id status →
  evolves items (status_changes P)
    (itemService.updateItemStatus id status changedBy ad).
Proof.
  intros HP w.
  destruct (itemService.updateItemStatus id status changedBy ad w)
    as [w' r] eqn:Hrun.
  apply updateItemStatus_run in Hrun
    as [(msg & -> & Hdb)|(it0 & Hit0 & -> & Hdb)];
    simpl; rewrite Hdb; [reflexivity|].
  simpl. intros i it Hit. rewrite list_lookup_fmap, Hit. simpl.
  eexists. split; [done|]. apply item_by_id_id in Hit0.
  case_decide as Hid; [|done]. simpl. split; [congruence|].
  intros _. by rewrite Hid.
Qed.

Lemma status_changes_app P (l k : list Item) : status_changes P l (l ++ k).
Proof.
  intros i it Hit. exists it. split_and!; [|done..].
  by apply lookup_app_l_Some.
Qed.

Lemma perform_status_changes o :
  evolves items (status_changes (writes o)) (perform o).
Proof.
  destruct o; simpl.
  - unfold AddItem.onSubmit, itemService.createItem.
    evolve_with ltac:(apply status_changes_app).
  - evolve_with ltac:(apply evolves_untouched; [apply _|apply createRequest_items]).
  - apply evolves_untouched; [apply _|apply handleBorrowReturn_items].
  - unfold pendingRequestService.approveRequest.
    evolve_with ltac:(apply updateItemStatus_status_changes; simpl;
                      unfold pendingRequestService.newStatus_of;
                      case_match; auto).
  - apply evolves_untouched; [apply _|apply rejectRequest_items].
  - unfold ItemList.archive.
    destruct (ItemList.archive_button userRole item) eqn:Hbutton.
    + unfold ItemList.confirmArchive.
      evolve_with ltac:(by apply updateItemStatus_status_changes).
    + evolve_with idtac.
  - unfold ItemList.restore.
    destruct (ItemList.restore_button userRole item) eqn:Hbutton.
    + unfold ItemList.confirmUnarchive.
      evolve_with ltac:(by apply updateItemStatus_status_changes).
    + evolve_with idtac.
Qed.

(** * Properties of the specification *)

(** ** Approval *)

(** C1.  [approveRequest] is announced as "a transaction-like operation"
    but nothing undoes the steps already taken when a later one fails.
    With ann's request for the drill open:
    - when the fourth round trip (the winner's history entry) fails, the
      approval rejects, yet the drill is already marked used by ann, no
      history entry records it, and the request is still in the queue;
    - when the fifth (the deletion of the item's requests) fails, the
      approval rejects, the drill is used by ann, her entry is written,
      and the queue still holds her request. *)
Theorem approveRequest_partial_on_storage_error :
  (let w := failing_after 3 "connection lost" one_request in
   let w' := (pendingRequestService.approveRequest 100 1 w).1 in
   (pendingRequestService.approveRequest 100 1 w).2
     = inl "Failed to create history entry: connection lost"
   ∧ i_status <$> item_by_id (db w) 10 = Some available
   ∧ i_status <$> item_by_id (db w') 10 = Some used
   ∧ i_last_used_by <$> item_by_id (db w') 10 = Some (Some 2)
   ∧ histories (db w') = histories (db w)
   ∧ pending_requests (db w') = pending_requests (db w)
   ∧ List.length (pending_requests (db w')) = 1)
  ∧ (let w := failing_after 4 "connection lost" one_request in
     let w' := (pendingRequestService.approveRequest 100 1 w).1 in
     (pendingRequestService.approveRequest 100 1 w).2
       = inl "Failed to delete pending requests: connection lost"
     ∧ i_status <$> item_by_id (db w') 10 = Some used
     ∧ h_action <$> histories (db w') = [borrowed]
     ∧ pending_requests (db w') = pending_requests (db w)
     ∧ List.length (pending_requests (db w')) = 1).
Proof. vm_compute. by repeat split. Qed.

(** C2.  After an approval that resolves, no open request is left for the
    item of the approved request, however many there were. *)
Theorem approveRequest_empties_queue requestId approvedBy w w' :
  pendingRequestService.approveRequest requestId approvedBy w = (w', inr tt) →
  ∃ request,
    request ∈ pending_requests (db w)
    ∧ r_id request = requestId
    ∧ filter (λ r, r_item_id r = r_item_id request) (pending_requests (db w')) = [].
Proof.
  intros (row & item & now & hw & hs & Hrow & _ & _ & _ & _ & _ & Hq & _)
    %approveRequest_resolved.
  apply single_filter_elem_of in Hrow as [Hin Hid].
  exists row. split_and!; [done..|].
  rewrite Hq, list_filter_filter. apply filter_none. intros r _. tauto.
Qed.

Lemma approveRequest_empties_queue_witness :
  ∃ request,
    request ∈ pending_requests (db two_requests)
    ∧ r_id request = 100
    ∧ filter (λ r, r_item_id r = r_item_id request)
        (pending_requests
           (db (pendingRequestService.approveRequest 100 1 two_requests).1)) = [].
Proof.
  apply (approveRequest_empties_queue 100 1 two_requests).
  vm_compute. reflexivity.
Defined.

(** C3.  An approval that resolves leaves the item of the approved request
    used, with the requester as [last_used_by], when the request was a
    [use] request, and available with no [last_used_by] when it was a
    [return] request. *)
Theorem approveRequest_sets_status requestId approvedBy w w' :
  pendingRequestService.approveRequest requestId approvedBy w = (w', inr tt) →
  ∃ request item,
    request ∈ pending_requests (db w)
    ∧ r_id request = requestId
    ∧ item_by_id (db w') (r_item_id request) = Some item
    ∧ match r_type request with
      | use =>
          i_status item = used
          ∧ i_last_used_by item = Some (r_requested_by request)
      | return_ =>
          i_status item = available ∧ i_last_used_by item = None
      end.
Proof.
  intros (row & item & now & hw & hs & Hrow & Hitem & Hitems & _)
    %approveRequest_resolved.
  apply single_filter_elem_of in Hrow as [Hin Hid].
  exists row, (approved_item row approvedBy now item). split_and!; [done..| |].
  - pose proof (item_by_id_id _ _ _ Hitem) as Hitem_id.
    rewrite Hitem_id in Hitems.
    by eapply item_by_id_rewritten.
  - unfold approved_item. by destruct (r_type row).
Qed.

Lemma approveRequest_sets_status_witness :
  ∃ request item,
    request ∈ pending_requests (db two_requests)
    ∧ r_id request = 100
    ∧ item_by_id
        (db (pendingRequestService.approveRequest 100 1 two_requests).1)
        (r_item_id request) = Some item
    ∧ match r_type request with
      | use =>
          i_status item = used
          ∧ i_last_used_by item = Some (r_requested_by request)
      | return_ =>
          i_status item = available ∧ i_last_used_by item = None
      end.
Proof.
  apply (approveRequest_sets_status 100 1 two_requests).
  vm_compute. reflexivity.
Defined.

(** C4, as the code has it.  In a store where every requester is a user,
    an approval that resolves appends, after the winner's entry, exactly
    one [rejected] entry for every other open request of the item,
    whatever its type.  Its [new_status] is the status computed for the
    winner; its [previous_status] is the status the item had before the
    approval; its details name the loser and the winner. *)
Theorem approveRequest_rejects_others requestId approvedBy w w' :
  pendingRequestService.approveRequest requestId approvedBy w = (w', inr tt) →
  (∀ r, r ∈ pending_requests (db w) →
        is_Some (user_by_id (db w) (r_requested_by r))) →
  ∃ request item others hw hs,
    request ∈ pending_requests (db w)
    ∧ r_id request = requestId
    ∧ item_by_id (db w) (r_item_id request) = Some item
    ∧ others ≡ₚ filter (λ r, r_item_id r = r_item_id request ∧ r_id r ≠ requestId)
                   (pending_requests (db w))
    ∧ histories (db w') = histories (db w) ++ hw :: hs
    ∧ h_action hw = match r_type request with
                    | use => borrowed
                    | return_ => returned
                    end
    ∧ Forall2
        (λ other h,
           h_action h = rejected
           ∧ h_item_id h = r_item_id request
           ∧ h_performed_by h = approvedBy
           ∧ h_previous_status h = Some (i_status item)
           ∧ h_new_status h
               = Some (pendingRequestService.newStatus_of (r_type request))
           ∧ ∃ other_user,
               user_by_id (db w) (r_requested_by other) = Some other_user
               ∧ h_details h
                   = Some (pendingRequestService.auto_rejected_details
                             (join_request (db w) request) other other_user))
        others hs.
Proof.
  intros (row & item & now & hw & hs & Hrow & Hitem & _ & Hh & Hhw & Hhs & _)
    %approveRequest_resolved Hfk.
  apply single_filter_elem_of in Hrow as [Hin Hid].
  pose proof (item_by_id_id _ _ _ Hitem) as Hitem_id.
  exists row, item, (j_row <$> otherRequests (db w) requestId (r_item_id row)), hw, hs.
  split_and!; [done..|apply otherRequests_rows|done|apply Hhw|].
  eapply Forall2_omap_total; [|exact Hhs].
  intros x (r & Hr & ->)%otherRequests_joined.
  destruct (Hfk r Hr) as [other_user Hu].
  unfold auto_rejected_entry. simpl. rewrite Hu. simpl.
  eexists. split; [done|].
  intros h (Hi & Ha & Hp & Hd & Hprev & Hnew). simpl in *.
  split_and!; [done|congruence|done..|].
  exists other_user. split; [done|]. rewrite Hd.
  unfold pendingRequestService.auto_rejected_details. apply or_null_text.
Qed.

Lemma approveRequest_rejects_others_witness :
  ∃ request item others hw hs,
    request ∈ pending_requests (db two_requests)
    ∧ r_id request = 100
    ∧ item_by_id (db two_requests) (r_item_id request) = Some item
    ∧ others ≡ₚ filter (λ r, r_item_id r = r_item_id request ∧ r_id r ≠ 100)
                   (pending_requests (db two_requests))
    ∧ histories (db (pendingRequestService.approveRequest 100 1 two_requests).1)
        = histories (db two_requests) ++ hw :: hs
    ∧ h_action hw = match r_type request with
                    | use => borrowed
                    | return_ => returned
                    end
    ∧ Forall2
        (λ other h,
           h_action h = rejected
           ∧ h_item_id h = r_item_id request
           ∧ h_performed_by h = 1
           ∧ h_previous_status h = Some (i_status item)
           ∧ h_new_status h
               = Some (pendingRequestService.newStatus_of (r_type request))
           ∧ ∃ other_user,
               user_by_id (db two_requests) (r_requested_by other) = Some other_user
               ∧ h_details h
                   = Some (pendingRequestService.auto_rejected_details
                             (join_request (db two_requests) request)
                             other other_user))
        others hs.
Proof.
  apply (approveRequest_rejects_others 100 1 two_requests).
  - vm_compute. reflexivity.
  - intros r Hr. vm_compute in Hr.
    apply elem_of_cons in Hr as [->|Hr];
      [|apply elem_of_cons in Hr as [->|Hr]; [|by apply elem_of_nil in Hr]];
      vm_compute; eauto.
Defined.

(** C4, as stated, fails: the [rejected] entry written for bob when ann's
    request is approved carries the status the drill had before the
    approval as its [previous_status], not the status decided for ann. *)
Lemma auto_rejected_previous_status_is_prior :
  let w' := (pendingRequestService.approveRequest 100 1 two_requests).1 in
  (pendingRequestService.approveRequest 100 1 two_requests).2 = inr tt
  ∧ ∃ h, histories (db w') !! 1 = Some h
         ∧ h_action h = rejected
         ∧ h_new_status h = Some used
         ∧ h_previous_status h = Some available
         ∧ h_previous_status h ≠ Some (pendingRequestService.newStatus_of use).
Proof.
  vm_compute. split; [done|]. eexists. by split_and!.
Qed.

(** ** Submission *)

(** C6, as stated, fails: the duplicate check runs before the check of
    who may return, so a refusal is not always NotAuthorizedForReturn.
    ann holds the drill and has asked to return it; the drill is then
    archived from a row that still lists it as available.  It is no
    longer used, and ann's second return request is refused as a
    duplicate. *)
Lemma return_refused_as_duplicate :
  let w := run drill_in_use
             [SubmitRequest (give_back ann);
              Archive (Some admin) (Some 1) drill "worn out"] in
  i_status <$> item_by_id (db w) 10 = Some archived
  ∧ ¬ may_return (db w) 10 2
  ∧ (pendingRequestService.createRequest (give_back ann) w).2
    = inl "You already have a pending request for this item"
  ∧ db (pendingRequestService.createRequest (give_back ann) w).1 = db w
  ∧ ¬ NotAuthorizedForReturn "You already have a pending request for this item".
Proof.
  split_and!; [vm_compute; reflexivity| |vm_compute; reflexivity..|].
  - intros (it & Hit & Hused & _). vm_compute in Hit. by simplify_eq.
  - by intros [?|[name ?]].
Qed.

(** C6, as the code has it.  A [return] request is refused, no pending
    request is created and the store is left as it is, unless the item
    is used and the requesting user is its [last_used_by]; so anyone but
    the current borrower is refused.  When the store answers, the
    refusal is the duplicate error if the requester has exactly one open
    return request for the item, since that check comes first;
    otherwise it is the refusal of [validateReturnRequest] if the item
    exists, and "Item not found" if it does not. *)
Theorem createRequest_return_refused p w :
  pendingRequestService.action_type p = return_ →
  ¬ may_return (db w) (pendingRequestService.item_id p)
      (pendingRequestService.requested_by p) →
  ∃ msg,
    (pendingRequestService.createRequest p w).2 = inl msg
    ∧ db (pendingRequestService.createRequest p w).1 = db w
    ∧ (faults w = [] →
       if decide (List.length
                    (filter (λ r, request_key r = params_key p)
                       (pending_requests (db w))) = 1)
       then msg = "You already have a pending request for this item"
       else match item_by_id (db w) (pendingRequestService.item_id p) with
            | Some _ => NotAuthorizedForReturn msg
            | None => msg = "Item not found"
            end).
Proof.
  intros Htype Hnot.
  destruct (pendingRequestService.createRequest p w) as [w' r] eqn:Hrun.
  pose proof Hrun as Hcases.
  apply createRequest_run in Hcases
    as [(msg & -> & Hdb)|(data & _ & _ & _ & _ & _ & _ & _ & Hmay)];
    [|by destruct Hnot; apply Hmay].
  exists msg. split_and!; [done..|].
  intros Hfaults. revert Hrun.
  unfold pendingRequestService.createRequest, itemService.hasUserPendingRequest,
    itemService.validateReturnRequest, itemService.getItemById.
  unfold_M. rewrite Hfaults. simpl. rewrite filter_request_key.
  destruct (filter _ (pending_requests (db w))) as [|x [|y l]]; simpl;
    rewrite ?Htype; simpl.
  - destruct (item_by_id (db w) (pendingRequestService.item_id p)) as [it|];
      simpl; unfold NotAuthorizedForReturn;
      repeat (case_decide; simpl); intros [= <-]; eauto.
  - by intros [= <-].
  - destruct (item_by_id (db w) (pendingRequestService.item_id p)) as [it|];
      simpl; unfold NotAuthorizedForReturn;
      repeat (case_decide; simpl); intros [= <-]; eauto.
Qed.

(** Scenario C: the drill is used by ann; bob asks to return it. *)
Lemma createRequest_return_refused_witness :
  ∃ msg,
    (pendingRequestService.createRequest (give_back bob) drill_in_use).2 = inl msg
    ∧ db (pendingRequestService.createRequest (give_back bob) drill_in_use).1
      = db drill_in_use
    ∧ NotAuthorizedForReturn msg.
Proof.
  destruct (createRequest_return_refused (give_back bob) drill_in_use)
    as (msg & Hmsg & Hdb & Hkind).
  - reflexivity.
  - intros (it & Hit & _ & Hby). vm_compute in Hit. by simplify_eq.
  - exists msg. split_and!; [exact Hmsg|exact Hdb|].
    apply (Hkind eq_refl).
Defined.

(** C5, as stated, fails on [createRequest]: it looks at the item only for
    a [return] request.  A [use] request for the archived drill is
    accepted and queued. *)
Lemma createRequest_use_on_archived_item :
  i_status <$> item_by_id (db drill_archived) 10 = Some archived
  ∧ ∃ data,
      (pendingRequestService.createRequest (borrow ann) drill_archived).2
        = inr data
      ∧ r_type data = use
      ∧ r_item_id data = 10
      ∧ pending_requests
          (db (pendingRequestService.createRequest (borrow ann) drill_archived).1)
        = [data].
Proof. vm_compute. split; [done|]. eexists. by split_and!. Qed.

(** C5, as the code has it.  The check of the item's state is made by the
    list page, on the row as it is listed: for a row that is not listed
    as available no [use] request is created, and for a row listed as
    archived nothing at all is done and, unless a submission for the row
    is already under way, an error is shown. *)
Theorem handleBorrowReturn_checks_listed_status u prs rq item w :
  i_status item ≠ available →
  let w' := (ItemList.handleBorrowReturn u prs rq item w).1 in
  (∀ r, r ∈ pending_requests (db w') → r_type r = use →
        r ∈ pending_requests (db w))
  ∧ (i_status item = archived →
     w' = w
     ∧ (i_id item ∉ rq →
        ∃ msg, (ItemList.handleBorrowReturn u prs rq item w).2 = inl msg)).
Proof.
  intros Hst. simpl.
  destruct (handleBorrowReturn_cases u prs rq item w)
    as [(r & Hrun & Herr)|(userId & entry & Hsome & Hrun)]; rewrite Hrun.
  - simpl. split; [done|]. intros _. split; [done|]. done.
  - clear Hrun. destruct Hsome as [?|Hused]; [done|]. split; [|congruence].
    rewrite decide_False by done.
    destruct (submit_pending_requests
                {| pendingRequestService.item_id := i_id item;
                   pendingRequestService.requested_by := userId;
                   pendingRequestService.action_type := return_ |} entry w)
      as [Hp|(data & Hkey & Hp & _)]; simpl in Hp; rewrite Hp.
    + done.
    + intros r [Hr|Hr%list_elem_of_singleton]%elem_of_app Huse; [done|].
      subst r. unfold request_key, params_key in Hkey. simpl in Hkey. congruence.
Qed.

Lemma handleBorrowReturn_checks_listed_status_witness :
  let item := apply_archived drill in
  let w' := (ItemList.handleBorrowReturn (Some 2) [] [] item drill_archived).1 in
  (∀ r, r ∈ pending_requests (db w') → r_type r = use →
        r ∈ pending_requests (db drill_archived))
  ∧ w' = drill_archived
  ∧ ∃ msg, (ItemList.handleBorrowReturn (Some 2) [] [] item drill_archived).2
            = inl msg.
Proof.
  destruct (handleBorrowReturn_checks_listed_status (Some 2) [] []
              (apply_archived drill) drill_archived) as [Hqueue Harchived];
    [done|].
  destruct Harchived as [Hsame Herr]; [done|].
  split_and!; [exact Hqueue|exact Hsame|].
  apply Herr. apply not_elem_of_nil.
Defined.

(** C7, as stated, fails: when the read of the duplicate check fails,
    [hasUserPendingRequest] answers [false] and the submission goes on.
    ann's request for the drill is open; the first round trip of her second
    submission fails; a second open request with the same item, requester
    and type is created. *)
Lemma duplicate_request_when_check_fails :
  let w := failing_after 0 "timeout" one_request in
  at_most_one_open (db w)
  ∧ (∃ r, r ∈ pending_requests (db w) ∧ request_key r = params_key (borrow ann))
  ∧ (∃ data, (pendingRequestService.createRequest (borrow ann) w).2 = inr data)
  ∧ ¬ at_most_one_open (db (pendingRequestService.createRequest (borrow ann) w).1).
Proof.
  vm_compute. split_and!.
  - apply NoDup_singleton.
  - eexists. split; [apply list_elem_of_here|done].
  - by eexists.
  - intros [Hin _]%NoDup_cons. apply Hin, list_elem_of_here.
Qed.

(** C7, as the code has it.  Along any sequence of operations in which the
    store answers the read of every duplicate check, at most one open
    request exists per (item, requester, type); and in the state reached,
    a submission whose check is answered and whose tuple is already open
    is refused as a duplicate and changes nothing. *)
Theorem one_open_request_per_tuple w ops :
  at_most_one_open (db w) →
  checks_answered w ops →
  let w' := run w ops in
  at_most_one_open (db w')
  ∧ ∀ p,
      hd None (faults w') = None →
      (∃ r, r ∈ pending_requests (db w') ∧ request_key r = params_key p) →
      (pendingRequestService.createRequest p w').2
        = inl "You already have a pending request for this item"
      ∧ db (pendingRequestService.createRequest p w').1 = db w'.
Proof.
  intros Hinv Hchecks. simpl.
  pose proof (run_at_most_one_open w ops Hinv Hchecks) as Hinv'.
  split; [done|]. generalize dependent (run w ops). clear.
  intros w' Hinv p Hcheck (r & Hr & Hkey).
  unfold pendingRequestService.createRequest, itemService.hasUserPendingRequest.
  rewrite !bind_run. unfold round_trip.
  assert (single (filter (λ r, r_item_id r = pendingRequestService.item_id p
                     ∧ r_requested_by r = pendingRequestService.requested_by p
                     ∧ r_type r = pendingRequestService.action_type p)
                    (pending_requests (db w'))) = Some r) as Hsingle.
  { rewrite filter_request_key.
    by rewrite (NoDup_key_filter request_key _ _ Hinv r). }
  destruct (faults w') as [|[msg|] fs]; simplify_eq/=;
    unfold_M; rewrite Hsingle; by simpl.
Qed.

Lemma one_open_request_per_tuple_witness :
  at_most_one_open (db one_request)
  ∧ (pendingRequestService.createRequest (borrow ann) one_request).2
    = inl "You already have a pending request for this item"
  ∧ db (pendingRequestService.createRequest (borrow ann) one_request).1
    = db one_request.
Proof.
  destruct (one_open_request_per_tuple (answering warehouse)
              [SubmitRequest (borrow ann)]) as [Hinv Hrefused].
  - apply NoDup_nil_2.
  - simpl. by split.
  - split; [exact Hinv|]. apply Hrefused; [reflexivity|].
    vm_compute. eexists. split; [apply list_elem_of_here|reflexivity].
Defined.

(** ** Archive and restore *)

(** C8, as stated, fails: [confirmArchive] checks nothing and no archive
    ever fails because the item is used.  The drill was listed as
    available when the page was loaded and has since been lent to ann;
    "Archive" is still offered on that row, resolves, and takes the drill
    from used to archived. *)
Lemma archive_on_stale_listing_of_used_item :
  let w := drill_in_use in
  let w' := (ItemList.archive (Some admin) (Some 1) drill "worn out" w).1 in
  i_status <$> item_by_id (db w) 10 = Some used
  ∧ ItemList.archive_button (Some admin) drill = true
  ∧ (ItemList.archive (Some admin) (Some 1) drill "worn out" w).2 = inr tt
  ∧ i_status <$> item_by_id (db w') 10 = Some archived.
Proof. vm_compute. by split_and!. Qed.

(** C8, as the code has it.  The archive operation checks nothing
    against the stored item and knows no InvalidState: with a user
    signed in and the store answering, [confirmArchive] resolves and
    leaves the stored item archived whatever its status was, used
    included, borrower untouched.  The guard is the list page's:
    "Archive" is there for an admin, on a row listed as neither used nor
    archived.  So of all the operations, the only one that takes an item
    that is used directly to archived is an archive an admin confirms on
    a row of that item that does not list it as used; when the row an
    archive acts on lists the stored status, no operation does. *)
Theorem used_item_archived_only_on_stale_row w :
  (∀ selectedItem userId reason stored,
     faults w = [] →
     item_by_id (db w) (i_id selectedItem) = Some stored →
     ∃ w' stored',
       ItemList.confirmArchive (Some selectedItem) (Some userId) reason w
       = (w', inr tt)
       ∧ item_by_id (db w') (i_id selectedItem) = Some stored'
       ∧ i_status stored' = archived
       ∧ i_last_used_by stored' = i_last_used_by stored)
  ∧ (∀ o i it,
       items (db w) !! i = Some it →
       i_status it = used →
       ∃ it',
         items (db (step w o)) !! i = Some it'
         ∧ i_id it' = i_id it
         ∧ (i_status it' = archived →
            ∃ userId item reason,
              o = Archive (Some admin) userId item reason
              ∧ i_id item = i_id it
              ∧ i_status item ≠ used
              ∧ i_status item ≠ archived)
         ∧ (match o with
            | Archive _ _ item _ => listing_current (db w) item
            | _ => True
            end →
            i_status it' ≠ archived)).
Proof.
  split.
  - intros selectedItem userId reason stored Hf Hstored.
    unfold ItemList.confirmArchive.
    edestruct update_then_entry_resolves as (w' & Hrun & _);
      [exact Hf|exact Hstored|].
    pose proof Hrun as (it0 & Hit0 & Hit')%update_then_entry_resolved.
    rewrite Hstored in Hit0. injection Hit0 as <-.
    eexists w', _. split_and!; [exact Hrun|exact Hit'|done|done].
  - intros o i it Hit Hused.
    destruct (perform_status_changes o w i it Hit) as (it' & Hit' & Hid & Hst).
    assert (Hroute : i_status it' = archived →
              ∃ userId item reason,
                o = Archive (Some admin) userId item reason
                ∧ i_id item = i_id it
                ∧ i_status item ≠ used
                ∧ i_status item ≠ archived).
    { intros Harchived. rewrite Harchived in Hst.
      specialize (Hst ltac:(congruence)).
      destruct o; simpl in Hst; try done.
      - by destruct Hst.
      - destruct Hst as ((-> & Ha & Hu)%archive_button_true & Hitem & _).
        by exists userId, item, reason.
      - by destruct Hst as (_ & _ & ?). }
    exists it'. split_and!; [exact Hit'|exact Hid|exact Hroute|].
    intros Hcurrent Harchived.
    destruct (Hroute Harchived) as (userId & item & reason & -> & Hitem & Hu & _).
    apply Hu. rewrite <-Hused. symmetry.
    apply Hcurrent; [by eapply list_elem_of_lookup_2|done].
Qed.

Lemma used_item_archived_only_on_stale_row_witness :
  let listed := approved_item (Build_PendingRequest 100 10 use 2 3) 1 5 drill in
  (∃ w' stored',
     ItemList.confirmArchive (Some drill) (Some 1) "worn out" drill_in_use
     = (w', inr tt)
     ∧ item_by_id (db w') (i_id drill) = Some stored'
     ∧ i_status stored' = archived
     ∧ i_last_used_by stored' = i_last_used_by listed)
  ∧ ∃ it',
      items (db (step drill_in_use
                   (Archive (Some admin) (Some 1) listed "worn out"))) !! 0
      = Some it'
      ∧ i_status it' ≠ archived.
Proof.
  intros listed.
  destruct (used_item_archived_only_on_stale_row drill_in_use) as [Hop Hstep].
  split.
  - apply (Hop drill 1 "worn out" listed); vm_compute; reflexivity.
  - destruct (Hstep (Archive (Some admin) (Some 1) listed "worn out") 0 listed)
      as (it' & Hit' & _ & _ & Hcurrent); [vm_compute; reflexivity..|].
    exists it'. split; [exact Hit'|]. apply Hcurrent.
    intros it Hit _. vm_compute in Hit.
    apply list_elem_of_singleton in Hit. by subst it.
Defined.

(** C9, as stated, fails, by the same path: archiving leaves
    [last_used_by] as it is, so the drill archived while ann held it is
    archived and still has a borrower. *)
Lemma archived_item_with_borrower :
  let w := run (answering warehouse)
             [SubmitRequest (borrow ann);
              ApproveRequest 100 1;
              Archive (Some admin) (Some 1) drill "worn out"] in
  used_iff_borrower (db (answering warehouse))
  ∧ (∃ it, item_by_id (db w) 10 = Some it
           ∧ i_status it = archived
           ∧ i_last_used_by it = Some 2)
  ∧ ¬ used_iff_borrower (db w).
Proof.
  vm_compute. split_and!.
  - apply Forall_singleton. split; [done|by intros []].
  - eexists. by split_and!.
  - intros [[_ Hiff] _]%Forall_cons. simpl in Hiff.
    assert (archived = used) as Habsurd by (apply Hiff; by exists 2).
    discriminate Habsurd.
Qed.

(** C9, as the code has it.  Along any sequence of operations in which
    every archive acts on a row listed with the item's current status,
    an item's status is used if and only if its [last_used_by] is
    non-null. *)
Theorem used_iff_last_used_by w ops :
  used_iff_borrower (db w) →
  archives_current w ops →
  ∀ it, it ∈ items (db (run w ops)) →
        i_status it = used ↔ i_last_used_by it ≠ None.
Proof.
  intros Hinv Hcur it Hit.
  pose proof (run_used_iff w ops Hinv Hcur) as Hrun.
  unfold used_iff_borrower in Hrun. rewrite Forall_forall in Hrun.
  rewrite (Hrun it Hit). by rewrite not_eq_None_Some.
Qed.

Lemma used_iff_last_used_by_witness :
  Forall (λ it, i_status it = used ↔ i_last_used_by it ≠ None)
    (items (db (run (answering warehouse)
                  [SubmitRequest (borrow ann);
                   ApproveRequest 100 1;
                   SubmitRequest (give_back ann);
                   ApproveRequest 102 1;
                   Archive (Some admin) (Some 1) drill "worn out";
                   Restore (Some admin) (Some 1)
                     (apply_archived drill) "repaired"]))).
Proof.
  apply Forall_forall.
  apply (used_iff_last_used_by (answering warehouse)).
  - apply Forall_singleton. split; [done|by intros []].
  - simpl. split_and!; try done.
    intros it Hit _. vm_compute in Hit.
    apply list_elem_of_singleton in Hit. by subst it.
Defined.

(** C10.  An item that has been archived and is then restored ends
    available, with no [last_used_by], no [archived_reason] and no
    [archived_at]. *)
Theorem archive_then_restore selectedItem userId reason
    selectedItem' userId' reason' w w1 w2 :
  ItemList.confirmArchive (Some selectedItem) userId reason w = (w1, inr tt) →
  ItemList.confirmUnarchive (Some selectedItem') userId' reason' w1
    = (w2, inr tt) →
  i_id selectedItem' = i_id selectedItem →
  ∃ it1 it2,
    item_by_id (db w1) (i_id selectedItem) = Some it1
    ∧ i_status it1 = archived
    ∧ is_Some (i_archived_at it1)
    ∧ item_by_id (db w2) (i_id selectedItem) = Some it2
    ∧ i_status it2 = available
    ∧ i_last_used_by it2 = None
    ∧ i_archived_reason it2 = None
    ∧ i_archived_at it2 = None.
Proof.
  unfold ItemList.confirmArchive, ItemList.confirmUnarchive.
  intros Harchive Hrestore Hid.
  destruct userId as [userId|]; [|discriminate].
  destruct userId' as [userId'|]; [|discriminate].
  rewrite Hid in Hrestore.
  apply update_then_entry_resolved in Harchive as (it & Hit & Hit1).
  apply update_then_entry_resolved in Hrestore as (it1 & Hit1' & Hit2).
  eexists _, _. split_and!; [exact Hit1| | |exact Hit2|..]; simpl; eauto.
Qed.

Lemma archive_then_restore_witness :
  ∃ it1 it2,
    item_by_id (db drill_archived) 10 = Some it1
    ∧ i_status it1 = archived
    ∧ is_Some (i_archived_at it1)
    ∧ item_by_id
        (db (ItemList.confirmUnarchive (Some (apply_archived drill)) (Some 1)
               "repaired" drill_archived).1) 10 = Some it2
    ∧ i_status it2 = available
    ∧ i_last_used_by it2 = None
    ∧ i_archived_reason it2 = None
    ∧ i_archived_at it2 = None.
Proof.
  apply (archive_then_restore drill (Some 1) "worn out"
           (apply_archived drill) (Some 1) "repaired"
           (answering warehouse) drill_archived).
  - vm_compute. reflexivity.
  - vm_compute. reflexivity.
  - reflexivity.
Defined.

(** * Further properties of the services *)

(** ** What the operations leave in place *)

(** *** The history ledger is append-only *)

Lemma createEntry_appends entry :
  evolves histories list.prefix (historyService.createEntry entry).
Proof.
  unfold historyService.createEntry. evolve_with ltac:(by apply prefix_app_r).
Qed.

Lemma perform_appends_histories o : evolves histories list.prefix (perform o).
Proof.
  pose proof createEntry_appends as Hentry.
  destruct o; simpl;
    unfold AddItem.onSubmit, itemService.createItem,
      ItemList.handleBorrowReturn, pendingRequestService.approveRequest,
      pendingRequestService.rejectRequest, pendingRequestService.deleteRequest,
      ItemList.archive, ItemList.restore, ItemList.confirmArchive,
      ItemList.confirmUnarchive;
    cbv zeta;
    evolve_with ltac:(first [apply Hentry | by apply prefix_app_r]).
Qed.

(** X1.  The history ledger is append-only: whatever operations run and
    whichever of their round trips fail, the entries that were there are
    still there, unchanged and in place, and new ones come after them. *)
Theorem histories_append_only w ops :
  histories (db w) `prefix_of` histories (db (run w ops)).
Proof. apply evolves_run; [apply _|apply perform_appends_histories]. Qed.

(** *** Items are never deleted *)

Lemma single_filter_unique {A} (P : A → Prop) `{!∀ x, Decision (P x)}
    (l : list A) (x y : A) :
  single (filter P l) = Some x → y ∈ l → P y → y = x.
Proof.
  intros Hs Hy HP. destruct (filter P l) as [|z [|z' k]] eqn:Hf; simplify_eq/=.
  assert (y ∈ filter P l) as Hin by (by apply list_elem_of_filter).
  rewrite Hf in Hin. by apply list_elem_of_singleton in Hin.
Qed.

(** Rewriting the one row of an id by a row that agrees with it under [f]
    leaves the image of the table under [f] as it was. *)
Lemma fmap_rewrite_row {K} (f : Item → K) (d : Db) id it data :
  item_by_id d id = Some it →
  f data = f it →
  f <$> ((λ x, if decide (i_id x = id) then data else x) <$> items d)
  = f <$> items d.
Proof.
  intros Hit Hf. rewrite <-list_fmap_compose. apply Forall_fmap_ext_1.
  apply Forall_forall. intros x Hx. simpl. case_decide as Hid; [|done].
  rewrite Hf. f_equal. symmetry.
  by apply (single_filter_unique (λ x, i_id x = id) (items d)).
Qed.

Lemma updateItemStatus_same_identities id status changedBy ad :
  evolves items same_identities
    (itemService.updateItemStatus id status changedBy ad).
Proof.
  intros w.
  destruct (itemService.updateItemStatus id status changedBy ad w)
    as [w' r] eqn:Hrun.
  apply updateItemStatus_run in Hrun as [(msg & -> & Hdb)|(it & Hit & -> & Hdb)];
    simpl; rewrite Hdb; [done|].
  unfold same_identities. simpl. by erewrite fmap_rewrite_row.
Qed.

Lemma perform_same_identities o : evolves items same_identities (perform o).
Proof.
  pose proof updateItemStatus_same_identities as Hupd.
  destruct o; simpl;
    unfold AddItem.onSubmit, itemService.createItem,
      pendingRequestService.approveRequest,
      ItemList.archive, ItemList.restore, ItemList.confirmArchive,
      ItemList.confirmUnarchive;
    evolve_with ltac:(first
      [ apply Hupd
      | unfold same_identities; rewrite fmap_app; by apply prefix_app_r ]).
  apply evolves_untouched; [apply _|apply handleBorrowReturn_items].
Qed.

(** X2.  Items are never deleted and never lose their identity: whatever
    operations run, every item that was in the store is still there, in
    place, with the same id, serial number, material, description,
    creation time and (never maintained) [pending_request_id]; created
    items come after. *)
Theorem items_never_deleted w ops :
  (identity <$> items (db w)) `prefix_of` (identity <$> items (db (run w ops))).
Proof.
  apply (evolves_run items same_identities).
  apply perform_same_identities.
Qed.

(** *** Archived items carry their archive date *)

Lemma updateItemStatus_stamped id status changedBy ad :
  evolves items (preserves stamped)
    (itemService.updateItemStatus id status changedBy ad).
Proof.
  intros w Hinv.
  destruct (itemService.updateItemStatus id status changedBy ad w)
    as [w' r] eqn:Hrun.
  apply updateItemStatus_run in Hrun as [(msg & -> & Hdb)|(it & Hit & -> & Hdb)];
    simpl; rewrite Hdb; [done|].
  unfold stamped in *. simpl. apply Forall_fmap.
  eapply Forall_impl; [exact Hinv|]. intros x Hx. simpl.
  case_decide; [|done]. simpl. intros ->. rewrite decide_True by done. by eexists.
Qed.

Lemma perform_stamped o : evolves items (preserves stamped) (perform o).
Proof.
  pose proof updateItemStatus_stamped as Hupd.
  destruct o; simpl;
    unfold AddItem.onSubmit, itemService.createItem,
      pendingRequestService.approveRequest,
      ItemList.archive, ItemList.restore, ItemList.confirmArchive,
      ItemList.confirmUnarchive;
    evolve_with ltac:(first
      [ apply Hupd
      | unfold preserves, stamped; intros Hinv; apply Forall_app;
        split; [done|]; by apply Forall_singleton ]).
  apply evolves_untouched; [apply _|apply handleBorrowReturn_items].
Qed.

(** X3.  An archived item always has its archive date: if every item
    with status archived has [archived_at] set, this is still so after
    any operations, whichever round trips fail and however stale the
    listings they act on. *)
Theorem archived_items_are_stamped w ops :
  stamped (items (db w)) →
  ∀ it, it ∈ items (db (run w ops)) →
        i_status it = archived → i_archived_at it ≠ None.
Proof.
  intros Hinv it Hit Harchived.
  pose proof (evolves_run items (preserves stamped) w ops perform_stamped Hinv)
    as Hrun.
  unfold stamped in Hrun. rewrite Forall_forall in Hrun.
  apply not_eq_None_Some. by apply Hrun.
Qed.

Lemma archived_items_are_stamped_witness :
  Forall (λ it, i_status it = archived → i_archived_at it ≠ None)
    (items (db (run (answering warehouse)
                  [SubmitRequest (borrow ann);
                   ApproveRequest 100 1;
                   Archive (Some admin) (Some 1) drill "worn out"]))).
Proof.
  apply Forall_forall.
  apply (archived_items_are_stamped (answering warehouse)).
  apply Forall_singleton. discriminate.
Defined.

(** *** Creating items *)

Lemma createItem_run itemData changedBy w w' r :
  itemService.createItem itemData changedBy w = (w', r) →
  (∃ msg, r = inl msg ∧ db w' = db w)
  ∨ (∃ data,
        r = inr data
        ∧ itemService.serial_number_taken (db w)
            (itemService.serial_number itemData) = false
        ∧ items (db w') = items (db w) ++ [data]
        ∧ pending_requests (db w') = pending_requests (db w)
        ∧ histories (db w') = histories (db w)
        ∧ users (db w') = users (db w)
        ∧ data =
            {| i_id := next_uuid (db w);
               i_material := itemService.material itemData;
               i_description := or_null (itemService.description itemData);
               i_serial_number := itemService.serial_number itemData;
               i_status := available;
               i_last_used_by := None;
               i_changed_by := Some changedBy;
               i_archived_reason := None;
               i_archived_at := None;
               i_created_at := S (clock w);
               i_updated_at := S (clock w);
               i_pending_request_id := None |}).
Proof.
  unfold itemService.createItem. unfold_M.
  destruct (faults w) as [|[msg|] fs]; simpl;
    try destruct (itemService.serial_number_taken _ _) eqn:Htaken; simpl;
    intros [= <- <-];
    first [ left; eexists; by split | right; eexists; by split_and! ].
Qed.

Lemma serial_number_taken_false d serial :
  itemService.serial_number_taken d serial = false →
  serial ∉ i_serial_number <$> items d.
Proof.
  unfold itemService.serial_number_taken.
  intros Hex (it & -> & Hit)%list_elem_of_fmap.
  apply not_true_iff_false in Hex. apply Hex, existsb_exists.
  exists it. split; [by apply list_elem_of_In|by apply bool_decide_eq_true].
Qed.

Lemma serial_number_taken_true d serial :
  itemService.serial_number_taken d serial = true →
  serial ∈ i_serial_number <$> items d.
Proof.
  unfold itemService.serial_number_taken.
  intros (it & Hit%list_elem_of_In & Hs%bool_decide_eq_true)%existsb_exists.
  apply list_elem_of_fmap. by exists it.
Qed.

Lemma createItem_serials_unique itemData changedBy :
  evolves items (preserves serials_unique)
    (itemService.createItem itemData changedBy).
Proof.
  intros w Hinv.
  destruct (itemService.createItem itemData changedBy w) as [w' r] eqn:Hrun.
  apply createItem_run in Hrun
    as [(msg & -> & Hdb)|(data & -> & Hfree & Hitems & _ & _ & _ & Hdata)];
    simpl; [by rewrite Hdb|].
  rewrite Hitems. unfold serials_unique in *. rewrite fmap_app.
  apply NoDup_app. split_and!; [done| |apply NoDup_singleton].
  intros s Hs Hnew. apply list_elem_of_singleton in Hnew. subst s data. simpl in *.
  by apply serial_number_taken_false in Hfree.
Qed.

Lemma updateItemStatus_serials_unique id status changedBy ad :
  evolves items (preserves serials_unique)
    (itemService.updateItemStatus id status changedBy ad).
Proof.
  intros w Hinv.
  destruct (itemService.updateItemStatus id status changedBy ad w)
    as [w' r] eqn:Hrun.
  apply updateItemStatus_run in Hrun as [(msg & -> & Hdb)|(it & Hit & -> & Hdb)];
    simpl; rewrite Hdb; [done|].
  unfold serials_unique in *. simpl. by erewrite fmap_rewrite_row.
Qed.

Lemma perform_serials_unique o :
  evolves items (preserves serials_unique) (perform o).
Proof.
  pose proof updateItemStatus_serials_unique as Hupd.
  pose proof createItem_serials_unique as Hcreate.
  destruct o; simpl;
    unfold AddItem.onSubmit, pendingRequestService.approveRequest,
      ItemList.archive, ItemList.restore, ItemList.confirmArchive,
      ItemList.confirmUnarchive;
    evolve_with ltac:(first [apply Hupd|apply Hcreate]).
  apply evolves_untouched; [apply _|apply handleBorrowReturn_items].
Qed.

(** X4.  Serial numbers stay unique: if no two items share a serial
    number, no operation makes two items share one; [createItem] answers
    a serial number that is taken with its duplicate error and writes
    nothing. *)
Theorem serial_numbers_stay_unique w ops :
  serials_unique (items (db w)) →
  serials_unique (items (db (run w ops)))
  ∧ ∀ itemData changedBy,
      faults (run w ops) = [] →
      itemService.serial_number itemData
        ∈ i_serial_number <$> items (db (run w ops)) →
      (itemService.createItem itemData changedBy (run w ops)).2
        = inl "An item with this serial number already exists"
      ∧ db (itemService.createItem itemData changedBy (run w ops)).1
        = db (run w ops).
Proof.
  intros Hinv. split.
  { by apply (evolves_run items (preserves serials_unique) w ops
                perform_serials_unique). }
  generalize (run w ops). clear. intros w itemData changedBy Hf Htaken.
  unfold itemService.createItem. unfold_M. rewrite Hf. simpl.
  destruct (itemService.serial_number_taken _ _) eqn:Hfree; [done|].
  by apply serial_number_taken_false in Hfree.
Qed.

Lemma serial_numbers_stay_unique_witness :
  serials_unique (items (db drill_in_use))
  ∧ (itemService.createItem
       {| itemService.material := "second drill";
          itemService.description := None;
          itemService.serial_number := "SN-0001" |} 1 drill_in_use).2
    = inl "An item with this serial number already exists".
Proof.
  destruct (serial_numbers_stay_unique (answering warehouse)
              [SubmitRequest (borrow ann); ApproveRequest 100 1])
    as [Hunique Hrefused].
  - apply NoDup_singleton.
  - split; [exact Hunique|].
    apply Hrefused; [reflexivity|]. vm_compute. apply list_elem_of_here.
Defined.

(** ** Rejection and requests that are gone *)

(** What a rejection that resolves has done to the store. *)
Lemma rejectRequest_resolved requestId rejectedBy w w' :
  pendingRequestService.rejectRequest requestId rejectedBy w = (w', inr tt) →
  ∃ row item h,
    single (filter (λ r, r_id r = requestId) (pending_requests (db w))) = Some row
    ∧ item_by_id (db w) (r_item_id row) = Some item
    ∧ items (db w') = items (db w)
    ∧ users (db w') = users (db w)
    ∧ histories (db w') = histories (db w) ++ [h]
    ∧ records
        {| historyService.item_id := i_id item;
           historyService.action := rejected;
           historyService.performed_by := rejectedBy;
           historyService.details :=
             Some (pendingRequestService.manually_rejected_details
                     (join_request (db w) row));
           historyService.previous_status := Some (i_status item);
           historyService.new_status := Some (i_status item) |} h
    ∧ pending_requests (db w') =
        filter (λ r, r_id r ≠ requestId) (pending_requests (db w)).
Proof.
  unfold pendingRequestService.rejectRequest.
  intros (w1 & request & Hsel & Hrest)%bind_resolves.
  destruct request as [request|]; [|discriminate].
  apply select_request_run in Hsel as (Hdb1 & row & Hrow & ->).
  simpl in Hrest.
  destruct (item_by_id (db w) (r_item_id row)) as [item|] eqn:Hitem;
    [|discriminate].
  apply bind_resolves in Hrest as (w2 & h & Hh & Hdel).
  pose proof (untouched_run items _ _ _ _ (createEntry_items _) Hh) as Hi2.
  pose proof (untouched_run pending_requests _ _ _ _
                (createEntry_pending_requests _) Hh) as Hp2.
  pose proof (untouched_run users _ _ _ _ (createEntry_users _) Hh) as Hu2.
  apply createEntry_run in Hh as [(? & ? & _)|(h' & [= <-] & Hrec & Hh2)];
    [done|].
  revert Hdel. unfold pendingRequestService.deleteRequest. unfold_M.
  destruct (faults w2) as [|[msg|] fs]; simpl; intros [= <-]; simpl;
    exists row, item, h; rewrite Hi2, Hp2, Hu2, Hh2, Hdb1; by split_and!.
Qed.

(** X5.  A rejection that resolves removes the rejected request and no
    other, leaves every item as it is, and appends exactly one [rejected]
    entry for the request's item, whose previous and new status are both
    the status the item has. *)
Theorem rejectRequest_removes_one requestId rejectedBy w w' :
  pendingRequestService.rejectRequest requestId rejectedBy w = (w', inr tt) →
  items (db w') = items (db w)
  ∧ pending_requests (db w')
    = filter (λ r, r_id r ≠ requestId) (pending_requests (db w))
  ∧ ∃ request item h,
      request ∈ pending_requests (db w)
      ∧ r_id request = requestId
      ∧ item_by_id (db w) (r_item_id request) = Some item
      ∧ histories (db w') = histories (db w) ++ [h]
      ∧ h_action h = rejected
      ∧ h_item_id h = r_item_id request
      ∧ h_performed_by h = rejectedBy
      ∧ h_previous_status h = Some (i_status item)
      ∧ h_new_status h = Some (i_status item).
Proof.
  intros (row & item & h & Hrow & Hitem & Hi & _ & Hh & Hrec & Hq)
    %rejectRequest_resolved.
  apply single_filter_elem_of in Hrow as [Hin Hid].
  destruct Hrec as (Hr1 & Hr2 & Hr3 & _ & Hr5 & Hr6). simpl in *.
  split_and!; [done..|].
  exists row, item, h. split_and!; try done.
  rewrite Hr1. by eapply item_by_id_id.
Qed.

Lemma rejectRequest_removes_one_witness :
  let w' := (pendingRequestService.rejectRequest 101 1 two_requests).1 in
  items (db w') = items (db two_requests)
  ∧ pending_requests (db w')
    = filter (λ r, r_id r ≠ 101) (pending_requests (db two_requests))
  ∧ ∃ request item h,
      request ∈ pending_requests (db two_requests)
      ∧ r_id request = 101
      ∧ item_by_id (db two_requests) (r_item_id request) = Some item
      ∧ histories (db w') = histories (db two_requests) ++ [h]
      ∧ h_action h = rejected
      ∧ h_item_id h = r_item_id request
      ∧ h_performed_by h = 1
      ∧ h_previous_status h = Some (i_status item)
      ∧ h_new_status h = Some (i_status item).
Proof.
  apply (rejectRequest_removes_one 101 1 two_requests).
  vm_compute. reflexivity.
Defined.

(** A request id that names no open request. *)
Lemma select_request_missing requestId w :
  (∀ r, r ∈ pending_requests (db w) → r_id r ≠ requestId) →
  ∃ w1, pendingRequestService.select_request requestId w = (w1, inr None)
        ∧ db w1 = db w.
Proof.
  intros Hnone. unfold pendingRequestService.select_request. unfold_M.
  destruct (faults w) as [|[msg|] fs]; simpl;
    rewrite ?(filter_none _ (pending_requests (db w))) by done; by eexists.
Qed.

(** X6.  Approving or rejecting an id that names no open request fails
    with "Request not found" and writes nothing. *)
Theorem request_not_found requestId userId w :
  (∀ r, r ∈ pending_requests (db w) → r_id r ≠ requestId) →
  (pendingRequestService.approveRequest requestId userId w).2
    = inl "Request not found"
  ∧ db (pendingRequestService.approveRequest requestId userId w).1 = db w
  ∧ (pendingRequestService.rejectRequest requestId userId w).2
    = inl "Request not found"
  ∧ db (pendingRequestService.rejectRequest requestId userId w).1 = db w.
Proof.
  intros Hnone.
  destruct (select_request_missing requestId w Hnone) as (w1 & Hsel & Hdb).
  unfold pendingRequestService.approveRequest, pendingRequestService.rejectRequest.
  by rewrite !(bind_resolved _ _ _ _ _ Hsel).
Qed.

Lemma request_not_found_witness :
  (pendingRequestService.approveRequest 7 1 two_requests).2
    = inl "Request not found"
  ∧ db (pendingRequestService.approveRequest 7 1 two_requests).1
    = db two_requests
  ∧ (pendingRequestService.rejectRequest 7 1 two_requests).2
    = inl "Request not found"
  ∧ db (pendingRequestService.rejectRequest 7 1 two_requests).1
    = db two_requests.
Proof.
  apply (request_not_found 7 1 two_requests).
  intros r Hr. vm_compute in Hr.
  apply elem_of_cons in Hr as [->|Hr];
    [|apply elem_of_cons in Hr as [->|Hr]; [|by apply elem_of_nil in Hr]];
    discriminate.
Defined.

(** X7.  Rejecting is not repeatable: once a rejection has resolved, a
    second rejection (or an approval) of the same id fails with "Request
    not found", and no second history entry is written. *)
Theorem rejectRequest_twice requestId rejectedBy userId w w' :
  pendingRequestService.rejectRequest requestId rejectedBy w = (w', inr tt) →
  (pendingRequestService.rejectRequest requestId userId w').2
    = inl "Request not found"
  ∧ (pendingRequestService.approveRequest requestId userId w').2
    = inl "Request not found"
  ∧ histories (db (pendingRequestService.rejectRequest requestId userId w').1)
    = histories (db w').
Proof.
  intros (_ & Hq & _)%rejectRequest_removes_one.
  destruct (request_not_found requestId userId w') as (Ha & _ & Hr & Hdb).
  { rewrite Hq. intros r [Hid _]%list_elem_of_filter. done. }
  by rewrite Hdb.
Qed.

Lemma rejectRequest_twice_witness :
  let w' := (pendingRequestService.rejectRequest 101 1 two_requests).1 in
  (pendingRequestService.rejectRequest 101 1 w').2 = inl "Request not found"
  ∧ (pendingRequestService.approveRequest 101 1 w').2 = inl "Request not found"
  ∧ histories (db (pendingRequestService.rejectRequest 101 1 w').1)
    = histories (db w').
Proof.
  apply (rejectRequest_twice 101 1 1 two_requests).
  vm_compute. reflexivity.
Defined.

(** X8.  No second winner: once an approval has resolved, approving or
    rejecting any request that was open for the same item, the approved
    one included, fails with "Request not found" and writes nothing
    (request ids being unique). *)
Theorem approveRequest_leaves_no_rival requestId approvedBy w w' :
  pendingRequestService.approveRequest requestId approvedBy w = (w', inr tt) →
  request_ids_unique (db w) →
  ∀ winner rival userId,
    winner ∈ pending_requests (db w) →
    r_id winner = requestId →
    rival ∈ pending_requests (db w) →
    r_item_id rival = r_item_id winner →
    (pendingRequestService.approveRequest (r_id rival) userId w').2
      = inl "Request not found"
    ∧ (pendingRequestService.rejectRequest (r_id rival) userId w').2
      = inl "Request not found"
    ∧ db (pendingRequestService.approveRequest (r_id rival) userId w').1 = db w'.
Proof.
  intros (row & item & now & hw & hs & Hrow & _ & _ & _ & _ & _ & Hq & _)
    %approveRequest_resolved Hids winner rival userId Hwin Hwid Hrival Hitem.
  assert (winner = row) as ->.
  { by eapply (single_filter_unique (λ r, r_id r = requestId)). }
  destruct (request_not_found (r_id rival) userId w') as (Ha & Hdb & Hr & _);
    [|done].
  rewrite Hq. intros r [Hother Hr]%list_elem_of_filter Hid.
  destruct Hother. rewrite <-Hitem. f_equal.
  unfold request_ids_unique in Hids.
  apply (NoDup_key_filter r_id (r_id rival) _ Hids) in Hr as Hfr; [|done].
  apply (NoDup_key_filter r_id (r_id rival) _ Hids) in Hrival as Hfrival; [|done].
  congruence.
Qed.

Lemma approveRequest_leaves_no_rival_witness :
  let w' := (pendingRequestService.approveRequest 100 1 two_requests).1 in
  (pendingRequestService.approveRequest 101 1 w').2 = inl "Request not found"
  ∧ (pendingRequestService.rejectRequest 101 1 w').2 = inl "Request not found"
  ∧ db (pendingRequestService.approveRequest 101 1 w').1 = db w'.
Proof.
  apply (approveRequest_leaves_no_rival 100 1 two_requests
           (pendingRequestService.approveRequest 100 1 two_requests).1)
    with (winner := Build_PendingRequest 100 10 use 2 3)
         (rival := Build_PendingRequest 101 10 use 3 5).
  - vm_compute. reflexivity.
  - vm_compute. apply NoDup_cons. split; [|apply NoDup_singleton].
    by intros ?%list_elem_of_singleton.
  - vm_compute. apply list_elem_of_here.
  - reflexivity.
  - vm_compute. apply list_elem_of_further, list_elem_of_here.
  - reflexivity.
Defined.

Lemma filter_other_ids_rewrite (id : nat) (data : Item) (l : list Item) :
  i_id data = id →
  filter (λ x, i_id x ≠ id)
         ((λ x, if decide (i_id x = id) then data else x) <$> l)
  = filter (λ x, i_id x ≠ id) l.
Proof.
  intros Hdata. induction l as [|x l IH]; [done|].
  rewrite fmap_cons. destruct (decide (i_id x = id)) as [Hx|Hx].
  - by rewrite !filter_cons_False by (intros H; by apply H).
  - by rewrite !filter_cons_True, IH by done.
Qed.

(** X9.  An approval touches one item only: when it resolves, every other
    item is as it was, and the open requests of every other item are all
    still in the queue, in order. *)
Theorem approveRequest_touches_one_item requestId approvedBy w w' :
  pendingRequestService.approveRequest requestId approvedBy w = (w', inr tt) →
  ∃ request,
    request ∈ pending_requests (db w)
    ∧ r_id request = requestId
    ∧ filter (λ it, i_id it ≠ r_item_id request) (items (db w'))
      = filter (λ it, i_id it ≠ r_item_id request) (items (db w))
    ∧ pending_requests (db w')
      = filter (λ r, r_item_id r ≠ r_item_id request) (pending_requests (db w))
    ∧ users (db w') = users (db w).
Proof.
  intros (row & item & now & hw & hs & Hrow & Hitem & Hitems & _ & _ & _ & Hq & Hu)
    %approveRequest_resolved.
  apply single_filter_elem_of in Hrow as [Hin Hid].
  exists row. split_and!; [done..| |done|done].
  rewrite Hitems, (item_by_id_id _ _ _ Hitem).
  apply filter_other_ids_rewrite. unfold approved_item. simpl.
  by eapply item_by_id_id.
Qed.

Lemma approveRequest_touches_one_item_witness :
  let w' := (pendingRequestService.approveRequest 100 1 two_requests).1 in
  ∃ request,
    request ∈ pending_requests (db two_requests)
    ∧ r_id request = 100
    ∧ filter (λ it, i_id it ≠ r_item_id request) (items (db w'))
      = filter (λ it, i_id it ≠ r_item_id request) (items (db two_requests))
    ∧ pending_requests (db w')
      = filter (λ r, r_item_id r ≠ r_item_id request)
          (pending_requests (db two_requests))
    ∧ users (db w') = users (db two_requests).
Proof.
  apply (approveRequest_touches_one_item 100 1 two_requests).
  vm_compute. reflexivity.
Defined.

(** ** Creating an item and finding it *)

(** X10.  An item that [createItem] has created is available, has no
    borrower and no archive data, carries the form's material and serial
    number (an empty description is stored as null), and is what
    [getItemById] then finds under its id (a fresh id being one no other
    item has), when the store answers. *)
Theorem createItem_then_getItemById itemData changedBy w w' it :
  itemService.createItem itemData changedBy w = (w', inr it) →
  (∀ x, x ∈ items (db w) → i_id x ≠ next_uuid (db w)) →
  i_status it = available
  ∧ i_last_used_by it = None
  ∧ i_archived_at it = None
  ∧ i_archived_reason it = None
  ∧ i_material it = itemService.material itemData
  ∧ i_serial_number it = itemService.serial_number itemData
  ∧ i_description it = or_null (itemService.description itemData)
  ∧ i_changed_by it = Some changedBy
  ∧ item_by_id (db w') (i_id it) = Some it
  ∧ (faults w' = [] →
     (itemService.getItemById (i_id it) w').2 = inr (Some (join_item (db w') it))).
Proof.
  intros Hrun Hfresh.
  apply createItem_run in Hrun
    as [(? & ? & _)|(data & [= <-] & _ & Hitems & _ & _ & _ & Hdata)]; [done|].
  assert (item_by_id (db w') (i_id it) = Some it) as Hfound.
  { unfold item_by_id. rewrite Hitems, filter_app.
    rewrite (filter_none _ (items (db w))).
    - rewrite filter_cons_True by done. done.
    - intros x Hx Hid. apply (Hfresh x Hx). rewrite Hid. by subst it. }
  split_and!; try (by subst it). intros Hf.
  unfold itemService.getItemById. unfold_M. rewrite Hf. simpl.
  by rewrite Hfound.
Qed.

Lemma createItem_then_getItemById_witness :
  let itemData := {| itemService.material := "saw";
                     itemService.description := Some "";
                     itemService.serial_number := "SN-0002" |} in
  let w' := (itemService.createItem itemData 1 (answering warehouse)).1 in
  ∃ it,
    (itemService.createItem itemData 1 (answering warehouse)).2 = inr it
    ∧ i_status it = available
    ∧ i_last_used_by it = None
    ∧ i_description it = None
    ∧ item_by_id (db w') (i_id it) = Some it
    ∧ (itemService.getItemById (i_id it) w').2 = inr (Some (join_item (db w') it)).
Proof.
  eexists. split; [vm_compute; reflexivity|].
  edestruct (createItem_then_getItemById
               {| itemService.material := "saw";
                  itemService.description := Some "";
                  itemService.serial_number := "SN-0002" |} 1
               (answering warehouse))
    as (H1 & H2 & _ & _ & _ & _ & H7 & _ & H9 & H10).
  - vm_compute. reflexivity.
  - intros x Hx. vm_compute in Hx. apply list_elem_of_singleton in Hx.
    subst x. discriminate.
  - split_and!; [exact H1|exact H2|exact H7|exact H9|].
    apply H10. reflexivity.
Defined.

(** ** Asking never changes the item *)

(** X11.  A submission from the list never changes any item, whatever its
    outcome.  When it goes through, the queue has gained one request of
    the signed-in user for the listed item, a [use] request for a row
    listed as available and a [return] request for a row listed as used,
    and the ledger one entry, [requested_borrow] or [requested_return],
    whose previous and new status are both the listed status. *)
Theorem handleBorrowReturn_queues_only u prs rq item w :
  let w' := (ItemList.handleBorrowReturn u prs rq item w).1 in
  items (db w') = items (db w)
  ∧ ((ItemList.handleBorrowReturn u prs rq item w).2 = inr tt →
     i_id item ∉ rq →
     ∃ userId data h,
       u = Some userId
       ∧ pending_requests (db w') = pending_requests (db w) ++ [data]
       ∧ r_item_id data = i_id item
       ∧ r_requested_by data = userId
       ∧ histories (db w') = histories (db w) ++ [h]
       ∧ h_item_id h = i_id item
       ∧ h_performed_by h = userId
       ∧ h_previous_status h = Some (i_status item)
       ∧ h_new_status h = Some (i_status item)
       ∧ (i_status item = available ∧ r_type data = use
          ∧ h_action h = requested_borrow
          ∨ i_status item = used ∧ r_type data = return_
            ∧ h_action h = requested_return)).
Proof.
  simpl. split; [apply handleBorrowReturn_items|].
  destruct (ItemList.handleBorrowReturn u prs rq item w) as [w' r] eqn:Hrun.
  simpl. intros -> Hrq. revert Hrun. unfold ItemList.handleBorrowReturn.
  destruct u as [userId|]; [|discriminate].
  case_decide; [discriminate|]. case_decide; [done|].
  destruct (ItemList.hasUserPendingRequest _ _ _ _); [discriminate|].
  cbv zeta.
  destruct (i_status item) eqn:Hst; try discriminate; simpl;
    intros (w1 & data & Hreq & (w2 & h & Hh & [= <-])%bind_resolves)%bind_resolves;
    pose proof (untouched_run pending_requests _ _ _ _
                  (createEntry_pending_requests _) Hh) as Hp2;
    pose proof (untouched_run histories _ _ _ _
                  (createRequest_histories _) Hreq) as Hh1;
    apply createRequest_run in Hreq
      as [(? & ? & _)|(data' & [= <-] & Hkey & Hp1 & _)]; try done;
    apply createEntry_run in Hh as [(? & ? & _)|(h' & [= <-] & Hrec & Hh2)];
      try done;
    destruct Hrec as (Hr1 & Hr2 & Hr3 & _ & Hr5 & Hr6);
    injection Hkey as Hk1 Hk2 Hk3; simpl in *;
    exists userId, data, h; rewrite Hp2, Hp1, Hh2, Hh1;
    split_and!; try done; [left|right]; by split_and!.
Qed.

(** Scenario A, first half: ann asks for the drill. *)
Lemma handleBorrowReturn_queues_only_witness :
  let w := answering warehouse in
  let w' := (ItemList.handleBorrowReturn (Some 2) [] [] drill w).1 in
  items (db w') = items (db w)
  ∧ ∃ userId data h,
      Some 2 = Some userId
      ∧ pending_requests (db w') = pending_requests (db w) ++ [data]
      ∧ r_item_id data = i_id drill
      ∧ r_requested_by data = userId
      ∧ histories (db w') = histories (db w) ++ [h]
      ∧ h_item_id h = i_id drill
      ∧ h_performed_by h = userId
      ∧ h_previous_status h = Some (i_status drill)
      ∧ h_new_status h = Some (i_status drill)
      ∧ (i_status drill = available ∧ r_type data = use
         ∧ h_action h = requested_borrow
         ∨ i_status drill = used ∧ r_type data = return_
           ∧ h_action h = requested_return).
Proof.
  destruct (handleBorrowReturn_queues_only (Some 2) [] [] drill
              (answering warehouse)) as [Hitems Hqueued].
  split; [exact Hitems|]. apply Hqueued; [reflexivity|apply not_elem_of_nil].
Defined.

(** ** The read paths *)

Lemma getItemHistory_run itemId w w' hs :
  historyService.getItemHistory itemId w = (w', inr hs) →
  db w' = db w
  ∧ hs = join_history (db w) <$>
           merge_sort latest_first
             (filter (λ h, h_item_id h = itemId) (histories (db w))).
Proof.
  unfold historyService.getItemHistory. unfold_M.
  destruct (faults w) as [|[msg|] fs]; simpl; by intros [= <- <-].
Qed.

Lemma fmap_hj_row d (l : list History) : hj_row <$> (join_history d <$> l) = l.
Proof.
  rewrite <-list_fmap_compose. rewrite (list_fmap_ext _ id); [|done].
  apply list_fmap_id.
Qed.

(** X12.  The history of an item: when it resolves, [getItemHistory]
    returns exactly the entries of that item, each once, most recent
    first, and writes nothing.  An entry that [createEntry] has just
    written for the item is among them. *)
Theorem getItemHistory_lists_item_entries itemId w w' hs :
  historyService.getItemHistory itemId w = (w', inr hs) →
  db w' = db w
  ∧ hj_row <$> hs ≡ₚ filter (λ h, h_item_id h = itemId) (histories (db w))
  ∧ Sorted latest_first (hj_row <$> hs)
  ∧ Forall (λ h, hj_performed_by_user h
                 = user_by_id (db w) (h_performed_by (hj_row h))) hs
  ∧ ∀ entry w0 h,
      historyService.createEntry entry w0 = (w, inr h) →
      historyService.item_id entry = itemId →
      h ∈ hj_row <$> hs.
Proof.
  intros (Hdb & ->)%getItemHistory_run. rewrite fmap_hj_row.
  split_and!; [done|apply merge_sort_Permutation|apply Sorted_merge_sort, _| |].
  - apply Forall_fmap, Forall_forall. by intros h _.
  - intros entry w0 h Hentry Hitem.
    apply createEntry_run in Hentry as [(? & ? & _)|(h' & [= <-] & Hrec & Hh)];
      [done|].
    rewrite merge_sort_Permutation. apply list_elem_of_filter.
    destruct Hrec as (Hr1 & _). split; [congruence|].
    rewrite Hh. apply elem_of_app. right. apply list_elem_of_here.
Qed.

Lemma getItemHistory_lists_item_entries_witness :
  let w := (pendingRequestService.approveRequest 100 1 two_requests).1 in
  ∃ hs,
    (historyService.getItemHistory 10 w).2 = inr hs
    ∧ hj_row <$> hs ≡ₚ filter (λ h, h_item_id h = 10) (histories (db w))
    ∧ Sorted latest_first (hj_row <$> hs)
    ∧ h_action ∘ hj_row <$> hs = [rejected; borrowed].
Proof.
  eexists. split; [vm_compute; reflexivity|].
  edestruct (getItemHistory_lists_item_entries 10
               (pendingRequestService.approveRequest 100 1 two_requests).1)
    as (_ & Hperm & Hsorted & _); [vm_compute; reflexivity|].
  split_and!; [exact Hperm|exact Hsorted|reflexivity].
Defined.

Lemma getRecentHistory_run limit w w' hs :
  historyService.getRecentHistory limit w = (w', inr hs) →
  db w' = db w
  ∧ hs = join_history (db w) <$>
           take (default 50 limit) (merge_sort latest_first (histories (db w))).
Proof.
  unfold historyService.getRecentHistory. unfold_M.
  destruct (faults w) as [|[msg|] fs]; simpl; by intros [= <- <-].
Qed.

(** In a list sorted by a transitive order, what [take] keeps comes
    before what it drops. *)
Lemma StronglySorted_take_drop {A} (R : relation A) (n : nat) (l : list A) :
  StronglySorted R l →
  ∀ x y, x ∈ take n l → y ∈ drop n l → R x y.
Proof.
  intros Hl. revert n. induction Hl as [|a l Hl IH Ha]; intros n x y.
  - rewrite take_nil. by intros ?%elem_of_nil.
  - destruct n as [|n]; simpl; [by intros ?%elem_of_nil|].
    intros [->|Hx]%elem_of_cons Hy.
    + rewrite Forall_forall in Ha. apply Ha.
      by eapply (subseteq_drop n l).
    + by eapply IH.
Qed.

(** X13.  The recent history: when it resolves, [getRecentHistory]
    returns at most [limit] entries (50 when no limit is given), most
    recent first, all of them entries of the ledger, and no entry it
    leaves out is more recent than one it returns; it writes nothing. *)
Theorem getRecentHistory_newest limit w w' hs :
  historyService.getRecentHistory limit w = (w', inr hs) →
  db w' = db w
  ∧ List.length hs = min (default 50 limit) (List.length (histories (db w)))
  ∧ Sorted latest_first (hj_row <$> hs)
  ∧ ∃ rest,
      histories (db w) ≡ₚ (hj_row <$> hs) ++ rest
      ∧ ∀ h h', h ∈ hj_row <$> hs → h' ∈ rest →
                (h_timestamp h' ≤ h_timestamp h)%nat.
Proof.
  intros (Hdb & ->)%getRecentHistory_run. rewrite fmap_hj_row.
  pose proof (StronglySorted_merge_sort latest_first (histories (db w))) as Hs.
  split_and!; [done| | |].
  - rewrite length_fmap, length_take.
    by rewrite (Permutation_length (merge_sort_Permutation _ _)).
  - apply StronglySorted_Sorted.
    rewrite <-(take_drop (default 50 limit)) in Hs.
    by apply StronglySorted_app_1_l in Hs.
  - exists (drop (default 50 limit) (merge_sort latest_first (histories (db w)))).
    split; [by rewrite take_drop, merge_sort_Permutation|].
    intros h h' Hh Hh'.
    by apply (StronglySorted_take_drop latest_first (default 50 limit) _ Hs h h').
Qed.

Lemma getRecentHistory_newest_witness :
  let w := (pendingRequestService.approveRequest 100 1 two_requests).1 in
  ∃ hs,
    (historyService.getRecentHistory (Some 1) w).2 = inr hs
    ∧ List.length hs = 1
    ∧ h_action ∘ hj_row <$> hs = [rejected].
Proof.
  eexists. split; [vm_compute; reflexivity|].
  edestruct (getRecentHistory_newest (Some 1)
               (pendingRequestService.approveRequest 100 1 two_requests).1)
    as (_ & Hlen & _); [vm_compute; reflexivity|].
  split; [exact Hlen|reflexivity].
Defined.

(** ** Who may return *)

Lemma holds_item_true d itemId userId :
  holds_item d itemId userId = true ↔ may_return d itemId userId.
Proof.
  unfold holds_item, may_return. destruct (item_by_id d itemId) as [it|].
  - rewrite andb_true_iff, !bool_decide_eq_true. split.
    + intros [? ?]. by exists it.
    + by intros (? & [= <-] & ? & ?).
  - split; [done|by intros (? & ? & _)].
Qed.

Lemma canUserReturnItem_run itemId userId w :
  itemService.canUserReturnItem itemId userId w
  = ((round_trip w).1,
     inr (match hd None (faults w) with
          | Some _ => false
          | None => holds_item (db w) itemId userId
          end)).
Proof.
  unfold itemService.canUserReturnItem, holds_item. unfold_M.
  destruct (faults w) as [|[msg|] fs]; simpl;
    by destruct (item_by_id (db w) itemId).
Qed.

Lemma validateReturnRequest_answered itemId userId w :
  hd None (faults w) = None →
  ∃ v, (itemService.validateReturnRequest itemId userId w).2 = inr v
       ∧ itemService.valid v = holds_item (db w) itemId userId.
Proof.
  unfold itemService.validateReturnRequest, itemService.getItemById, holds_item.
  unfold_M. intros Hf.
  destruct (faults w) as [|[msg|] fs]; simplify_eq/=;
    (destruct (item_by_id (db w) itemId) as [it|]; simpl; [|by eexists]);
    repeat (case_decide; simpl); eexists; (split; [done|]); simpl;
    rewrite ?(bool_decide_eq_false_2 (i_status it = used)) by done;
    rewrite ?(bool_decide_eq_true_2 (i_status it = used)) by (by apply dec_stable);
    rewrite ?(bool_decide_eq_false_2 (i_last_used_by it = Some userId)) by done;
    rewrite ?(bool_decide_eq_true_2 (i_last_used_by it = Some userId))
      by (by apply dec_stable);
    done.
Qed.

(** X14.  The two checks of who may return an item agree: when the store
    answers, [canUserReturnItem] is true exactly when
    [validateReturnRequest] is valid, which is exactly when the item is
    used and held by the user.  When the read fails, [canUserReturnItem]
    answers false instead of failing.  Neither writes anything. *)
Theorem canUserReturnItem_agrees itemId userId w :
  db (itemService.canUserReturnItem itemId userId w).1 = db w
  ∧ db (itemService.validateReturnRequest itemId userId w).1 = db w
  ∧ (hd None (faults w) ≠ None →
     (itemService.canUserReturnItem itemId userId w).2 = inr false)
  ∧ (hd None (faults w) = None →
     ∃ b v,
       (itemService.canUserReturnItem itemId userId w).2 = inr b
       ∧ (itemService.validateReturnRequest itemId userId w).2 = inr v
       ∧ b = itemService.valid v
       ∧ (b = true ↔ may_return (db w) itemId userId)).
Proof.
  rewrite canUserReturnItem_run. split_and!.
  - simpl. apply (untouched_round_trip (λ d, d)).
  - apply (validateReturnRequest_untouched (λ d, d)).
  - simpl. by destruct (hd None (faults w)).
  - intros Hf.
    destruct (validateReturnRequest_answered itemId userId w Hf) as (v & Hv & Hvalid).
    exists (holds_item (db w) itemId userId), v. simpl. rewrite Hf.
    split_and!; [done..|]. apply holds_item_true.
Qed.

Lemma canUserReturnItem_agrees_witness :
  (itemService.canUserReturnItem 10 2 drill_in_use).2 = inr true
  ∧ may_return (db drill_in_use) 10 2
  ∧ (itemService.canUserReturnItem 10 2
       (failing_after 0 "gateway timeout" drill_in_use)).2 = inr false.
Proof.
  destruct (canUserReturnItem_agrees 10 2 drill_in_use)
    as (_ & _ & _ & Hagree).
  destruct Hagree as (b & v & Hb & _ & _ & Hiff); [vm_compute; reflexivity|].
  destruct (canUserReturnItem_agrees 10 2
              (failing_after 0 "gateway timeout" drill_in_use))
    as (_ & _ & Hfails & _).
  vm_compute in Hb. injection Hb as <-.
  split_and!; [vm_compute; reflexivity|by apply Hiff|].
  apply Hfails. vm_compute. discriminate.
Defined.

(** ** The borrow/return button *)

(** X15.  A disabled button does nothing, also when pressed: for the same
    loaded requests and user, whenever [canUserActOnItem] is false the
    handler leaves the world exactly as it is; and a row whose button
    reads "Pending" is one of those. *)
Theorem disabled_button_does_nothing prs u rq item w :
  (ItemList.canUserActOnItem prs u item = false →
   (ItemList.handleBorrowReturn u prs rq item w).1 = w)
  ∧ (ItemList.getBorrowReturnButtonText prs u item = "Pending" →
     ItemList.canUserActOnItem prs u item = false).
Proof.
  split.
  - unfold ItemList.canUserActOnItem, ItemList.handleBorrowReturn.
    intros Hcan. destruct u as [userId|]; [|done].
    destruct (ItemList.hasUserPendingRequest prs (Some userId) (i_id item) use)
      eqn:Huse;
      destruct (ItemList.hasUserPendingRequest prs (Some userId) (i_id item)
                  return_) eqn:Hret;
      destruct (i_status item) eqn:Hst;
      cbv zeta; repeat case_decide; rewrite ?Huse, ?Hret;
      try done; try discriminate; naive_solver.
  - unfold ItemList.getBorrowReturnButtonText, ItemList.canUserActOnItem.
    destruct (i_status item); try done;
      destruct (ItemList.hasUserPendingRequest _ _ _ _); try done.
    intros _. apply andb_false_r.
Qed.

Lemma disabled_button_does_nothing_witness :
  let prs := pending_requests (db one_request) in
  ItemList.canUserActOnItem prs (Some 2) drill = false
  ∧ (ItemList.handleBorrowReturn (Some 2) prs [] drill one_request).1 = one_request.
Proof.
  split; [reflexivity|].
  apply (disabled_button_does_nothing
           (pending_requests (db one_request)) (Some 2) [] drill one_request).
  reflexivity.
Defined.

(** ** Editing an item *)

Lemma updateItem_run id itemData changedBy w w' r :
  itemService.updateItem id itemData changedBy w = (w', r) →
  (∃ msg, r = inl msg ∧ db w' = db w)
  ∨ (∃ it,
        item_by_id (db w) id = Some it
        ∧ let data := itemService.edited_item itemData changedBy (clock w) it in
          r = inr data
          ∧ (∀ x, x ∈ items (db w) → i_id x ≠ id →
                  i_serial_number x ≠ i_serial_number data)
          ∧ db w' = with_items (db w)
                      ((λ x, if decide (i_id x = id) then data else x)
                         <$> items (db w))).
Proof.
  unfold itemService.updateItem. unfold_M.
  destruct (faults w) as [|[msg|] fs]; simpl;
    try (intros [= <- <-]; left; by eexists);
    (destruct (item_by_id (db w) id) as [it|] eqn:Hit; simpl;
     [|intros [= <- <-]; left; by eexists]);
    (destruct (existsb _ _) eqn:Hclash; simpl; intros [= <- <-];
     [left; by eexists|]);
    right; exists it; split_and!; try done;
    intros x Hx Hid Hserial;
    apply not_true_iff_false in Hclash; apply Hclash, existsb_exists;
    exists x; (split; [by apply list_elem_of_In|]);
    by apply bool_decide_eq_true.
Qed.

Lemma updateItem_pending_requests id itemData changedBy :
  untouched pending_requests (itemService.updateItem id itemData changedBy).
Proof. unfold itemService.updateItem. frame. Qed.

Lemma updateItem_histories id itemData changedBy :
  untouched histories (itemService.updateItem id itemData changedBy).
Proof. unfold itemService.updateItem. frame. Qed.

(** Rewriting the one row of an id keeps a key unique when no other row
    has the new row's key. *)
Lemma NoDup_rewrite_row {K} (g : Item → K) (id : nat) (it data : Item)
    (l : list Item) :
  NoDup (g <$> l) →
  (∀ x, x ∈ l → i_id x = id → x = it) →
  (∀ x, x ∈ l → i_id x ≠ id → g x ≠ g data) →
  NoDup (g <$> ((λ x, if decide (i_id x = id) then data else x) <$> l)).
Proof.
  induction l as [|x l IH]; intros Hnd Hone Hother; [done|].
  rewrite !fmap_cons. rewrite fmap_cons, NoDup_cons in Hnd.
  destruct Hnd as [Hx Hl]. apply NoDup_cons. split.
  - intros (y' & Hg & (y & -> & Hy)%list_elem_of_fmap)%list_elem_of_fmap.
    destruct (decide (i_id x = id)) as [Hxid|Hxid];
      destruct (decide (i_id y = id)) as [Hyid|Hyid].
    + apply Hx, list_elem_of_fmap. exists y. split; [|done].
      f_equal. rewrite (Hone x), (Hone y); [done|by right|done|by left|done].
    + apply (Hother y); [by right|done|done].
    + apply (Hother x); [by left|done|done].
    + apply Hx, list_elem_of_fmap. by exists y.
  - apply IH; [done| |].
    + intros y Hy. apply Hone. by right.
    + intros y Hy. apply Hother. by right.
Qed.

Lemma updateItem_keeps id itemData changedBy w :
  let w' := (itemService.updateItem id itemData changedBy w).1 in
  lifecycle <$> items (db w') = lifecycle <$> items (db w)
  ∧ (serials_unique (items (db w)) → serials_unique (items (db w'))).
Proof.
  simpl.
  destruct (itemService.updateItem id itemData changedBy w) as [w' r] eqn:Hrun.
  apply updateItem_run in Hrun
    as [(msg & -> & Hdb)|(it & Hit & -> & Hfree & Hdb)];
    simpl; rewrite Hdb; [done|]. simpl. split.
  - by erewrite fmap_rewrite_row.
  - intros Hnd. eapply NoDup_rewrite_row; [done| |done].
    intros x Hx Hid.
    by apply (single_filter_unique (λ x, i_id x = id) (items (db w))).
Qed.

(** X16.  An edit never touches the workflow: whatever its outcome,
    saving the edit form leaves the status, borrower, archive data and
    creation time of every item as they are, leaves the queue alone,
    only appends to the ledger, and keeps serial numbers unique.  When it
    goes through with no change of material and the same description
    text, no entry is written; otherwise exactly one [edited] entry,
    without statuses. *)
Theorem edit_keeps_workflow id originalItem userId data w :
  let w' := (EditItem.onSubmit id originalItem userId data w).1 in
  lifecycle <$> items (db w') = lifecycle <$> items (db w)
  ∧ pending_requests (db w') = pending_requests (db w)
  ∧ histories (db w) `prefix_of` histories (db w')
  ∧ (serials_unique (items (db w)) → serials_unique (items (db w')))
  ∧ ((EditItem.onSubmit id originalItem userId data w).2 = inr tt →
     ∀ original, originalItem = Some original → is_Some id →
       if decide (EditItem.changes original data = [])
       then histories (db w') = histories (db w)
       else ∃ h, histories (db w') = histories (db w) ++ [h]
                 ∧ h_action h = edited
                 ∧ h_previous_status h = None
                 ∧ h_new_status h = None).
Proof.
  simpl. unfold EditItem.onSubmit.
  destruct id as [id|]; [|by split_and!; try done; intros _ ? _ []].
  destruct originalItem as [original|]; [|by split_and!].
  destruct userId as [userId|]; [|by split_and!].
  rewrite bind_run.
  match goal with
  | |- context [ itemService.updateItem ?i ?p ?u w ] =>
      pose proof (updateItem_keeps i p u w) as [Hlife Hserial];
      pose proof (updateItem_pending_requests i p u w) as Hp;
      pose proof (updateItem_histories i p u w) as Hh;
      destruct (itemService.updateItem i p u w) as [w1 [e|it]]
  end; simpl in *; [by rewrite Hh; split_and!|].
  case_decide as Hchanges.
  - match goal with
    | |- context [ (historyService.createEntry ?e ≫= ?k) w1 ] =>
        pose proof (untouched_bind items _ k (createEntry_items e)
                      (λ _, untouched_ret items tt) w1) as Hi2;
        pose proof (untouched_bind pending_requests _ k
                      (createEntry_pending_requests e)
                      (λ _, untouched_ret pending_requests tt) w1) as Hp2;
        rewrite bind_run;
        destruct (historyService.createEntry e w1) as [w2 [msg|h]] eqn:Hentry
    end; rewrite bind_run, Hentry in Hi2, Hp2; simpl in *;
      apply createEntry_run in Hentry
        as [(? & [= <-] & Hdb)|(h' & [= <-] & Hrec & Hh2)];
      rewrite ?Hi2, ?Hp2, ?Hdb, ?Hh2, ?Hh, ?Hp; split_and!; try done.
    + by apply prefix_app_r.
    + intros _ ? [= <-] _. rewrite decide_False by (intros Hnil;
        rewrite Hnil in Hchanges; simpl in Hchanges; lia).
      destruct Hrec as (_ & Ha & _ & _ & Hprev & Hnew). by exists h.
  - unfold_M; simpl. rewrite Hh, Hp. split_and!; try done.
    intros _ ? [= <-] _. rewrite decide_True; [done|].
    destruct (EditItem.changes original data); [done|simpl in Hchanges; lia].
Qed.

Lemma edit_keeps_workflow_witness :
  let data := {| itemService.material := "hammer drill";
                 itemService.description := None;
                 itemService.serial_number := "SN-0001" |} in
  let w := answering warehouse in
  let w' := (EditItem.onSubmit (Some 10) (Some drill) (Some 1) data w).1 in
  (EditItem.onSubmit (Some 10) (Some drill) (Some 1) data w).2 = inr tt
  ∧ lifecycle <$> items (db w') = lifecycle <$> items (db w)
  ∧ ∃ h, histories (db w') = histories (db w) ++ [h] ∧ h_action h = edited.
Proof.
  intros data w.
  destruct (edit_keeps_workflow (Some 10) (Some drill) (Some 1) data w)
    as (Hlife & _ & _ & _ & Hentry).
  split_and!; [vm_compute; reflexivity|exact Hlife|].
  assert (Hok : (EditItem.onSubmit (Some 10) (Some drill) (Some 1) data w).2
                = inr tt) by (vm_compute; reflexivity).
  specialize (Hentry Hok drill eq_refl (mk_is_Some _ _ eq_refl)).
  case_decide as Hchanges; [vm_compute in Hchanges; discriminate|].
  destruct Hentry as (h & Hh & Ha & _). by exists h.
Defined.

(** ** Listings *)

Lemma getItems_run w w' its :
  itemService.getItems w = (w', inr its) →
  w' = answered w
  ∧ its = join_item (db w) <$> merge_sort created_last_first (items (db w)).
Proof.
  unfold itemService.getItems, answered. unfold_M.
  destruct (faults w) as [|[msg|] fs]; simpl; by intros [= <- <-].
Qed.

Lemma getAllPendingRequests_run w w' rs :
  pendingRequestService.getAllPendingRequests w = (w', inr rs) →
  w' = answered w
  ∧ rs = join_request (db w) <$> merge_sort newer_first (pending_requests (db w)).
Proof.
  unfold pendingRequestService.getAllPendingRequests, answered. unfold_M.
  destruct (faults w) as [|[msg|] fs]; simpl; by intros [= <- <-].
Qed.

Lemma getRequestsByUser_run userId w w' rs :
  pendingRequestService.getRequestsByUser userId w = (w', inr rs) →
  w' = answered w
  ∧ rs = join_request (db w) <$>
           merge_sort newer_first
             (filter (λ r, r_requested_by r = userId) (pending_requests (db w))).
Proof.
  unfold pendingRequestService.getRequestsByUser, answered. unfold_M.
  destruct (faults w) as [|[msg|] fs]; simpl; by intros [= <- <-].
Qed.

Lemma getPendingRequestsForItem_answered itemId w w' rs :
  pendingRequestService.getPendingRequestsForItem itemId w = (w', inr rs) →
  w' = answered w
  ∧ rs = join_request (db w) <$>
           merge_sort newer_first
             (filter (λ r, r_item_id r = itemId) (pending_requests (db w))).
Proof.
  unfold pendingRequestService.getPendingRequestsForItem, answered. unfold_M.
  destruct (faults w) as [|[msg|] fs]; simpl; by intros [= <- <-].
Qed.

Lemma fmap_j_row d (l : list PendingRequest) :
  j_row <$> (join_request d <$> l) = l.
Proof.
  rewrite <-list_fmap_compose. rewrite (list_fmap_ext _ id); [|done].
  apply list_fmap_id.
Qed.

Lemma fmap_ij_row d (l : list Item) : ij_row <$> (join_item d <$> l) = l.
Proof.
  rewrite <-list_fmap_compose. rewrite (list_fmap_ext _ id); [|done].
  apply list_fmap_id.
Qed.

(** X17.  The item list: when it resolves, [getItems] returns every item
    of the store, archived ones included, each once, last created first,
    with the borrower joined in; it writes nothing and costs one round
    trip. *)
Theorem getItems_lists_every_item w w' its :
  itemService.getItems w = (w', inr its) →
  w' = answered w
  ∧ ij_row <$> its ≡ₚ items (db w)
  ∧ Sorted created_last_first (ij_row <$> its)
  ∧ Forall (λ it, ij_last_used_by_user it
                  = i_last_used_by (ij_row it) ≫= user_by_id (db w)) its.
Proof.
  intros (Hw & ->)%getItems_run. rewrite fmap_ij_row.
  split_and!; [done|apply merge_sort_Permutation|apply Sorted_merge_sort, _|].
  apply Forall_fmap, Forall_forall. by intros it _.
Qed.

Lemma getItems_lists_every_item_witness :
  ∃ its,
    itemService.getItems drill_archived = (answered drill_archived, inr its)
    ∧ ij_row <$> its ≡ₚ items (db drill_archived)
    ∧ i_status ∘ ij_row <$> its = [archived].
Proof.
  eexists. split; [vm_compute; reflexivity|].
  edestruct (getItems_lists_every_item drill_archived)
    as (_ & Hperm & _); [vm_compute; reflexivity|].
  split; [exact Hperm|reflexivity].
Defined.

(** X18.  The request listings: when they resolve, the full listing holds
    every open request once, newest first; the listing of a user and the
    listing of an item hold exactly the full listing's requests of that
    user and of that item, newest first, joined the same way.  None of
    them writes. *)
Theorem request_listings_agree userId itemId w w1 w2 w3 all mine theirs :
  pendingRequestService.getAllPendingRequests w = (w1, inr all) →
  pendingRequestService.getRequestsByUser userId w = (w2, inr mine) →
  pendingRequestService.getPendingRequestsForItem itemId w = (w3, inr theirs) →
  (w1 = answered w ∧ w2 = answered w ∧ w3 = answered w)
  ∧ j_row <$> all ≡ₚ pending_requests (db w)
  ∧ Sorted newer_first (j_row <$> all)
  ∧ mine ≡ₚ filter (λ r, r_requested_by (j_row r) = userId) all
  ∧ Sorted newer_first (j_row <$> mine)
  ∧ theirs ≡ₚ filter (λ r, r_item_id (j_row r) = itemId) all
  ∧ Sorted newer_first (j_row <$> theirs).
Proof.
  intros (-> & ->)%getAllPendingRequests_run (-> & ->)%getRequestsByUser_run
         (-> & ->)%getPendingRequestsForItem_answered.
  rewrite !fmap_j_row, !filter_fmap. simpl.
  split_and!; try done; try apply merge_sort_Permutation;
    try apply Sorted_merge_sort, _.
  - apply fmap_Permutation.
    by rewrite !merge_sort_Permutation.
  - apply fmap_Permutation.
    by rewrite !merge_sort_Permutation.
Qed.

Lemma request_listings_agree_witness :
  ∃ all mine theirs,
    pendingRequestService.getAllPendingRequests two_requests
      = (answered two_requests, inr all)
    ∧ mine ≡ₚ filter (λ r, r_requested_by (j_row r) = 3) all
    ∧ theirs ≡ₚ filter (λ r, r_item_id (j_row r) = 10) all
    ∧ r_id ∘ j_row <$> all = [101; 100]
    ∧ r_id ∘ j_row <$> mine = [101].
Proof.
  eexists _, _, _. split; [vm_compute; reflexivity|].
  edestruct (request_listings_agree 3 10 two_requests)
    as (_ & _ & _ & Hmine & _ & Htheirs & _);
    [vm_compute; reflexivity..|].
  split_and!; [exact Hmine|exact Htheirs|reflexivity|reflexivity].
Defined.

(** ** Grouping and counting the queue *)

Lemma Set_add_elem_of {A} `{!EqDecision A} (s : list A) (x y : A) :
  y ∈ Set_add s x ↔ y ∈ s ∨ y = x.
Proof.
  unfold Set_add. case_decide as Hx.
  - split; [by left|]. by intros [?| ->].
  - rewrite elem_of_app, list_elem_of_singleton. tauto.
Qed.

Lemma Set_add_NoDup {A} `{!EqDecision A} (s : list A) (x : A) :
  NoDup s → NoDup (Set_add s x).
Proof.
  intros Hs. unfold Set_add. case_decide as Hx; [done|].
  apply NoDup_app. split_and!; [done| |apply NoDup_singleton].
  intros y Hy Hy'. apply list_elem_of_singleton in Hy' as ->. done.
Qed.

Lemma new_Set_snoc {A} `{!EqDecision A} (xs : list A) (x : A) :
  new_Set (xs ++ [x]) = Set_add (new_Set xs) x.
Proof. unfold new_Set. by rewrite foldl_snoc. Qed.

Lemma new_Set_elem_of {A} `{!EqDecision A} (xs : list A) (y : A) :
  y ∈ new_Set xs ↔ y ∈ xs.
Proof.
  induction xs as [|x xs IH] using rev_ind.
  - done.
  - rewrite new_Set_snoc, Set_add_elem_of, IH, elem_of_app,
      list_elem_of_singleton. tauto.
Qed.

Lemma new_Set_NoDup {A} `{!EqDecision A} (xs : list A) : NoDup (new_Set xs).
Proof.
  induction xs as [|x xs IH] using rev_ind; [apply NoDup_nil_2|].
  rewrite new_Set_snoc. by apply Set_add_NoDup.
Qed.

Lemma new_Set_Permutation {A} `{!EqDecision A} (xs ys : list A) :
  xs ≡ₚ ys → new_Set xs ≡ₚ new_Set ys.
Proof.
  intros Hp. apply NoDup_Permutation; [apply new_Set_NoDup..|].
  intros x. by rewrite !new_Set_elem_of, Hp.
Qed.

(** A set of request types has more than one member exactly when it has
    both. *)
Lemma both_types (s : list RequestType) :
  NoDup s → (1 < List.length s)%nat ↔ use ∈ s ∧ return_ ∈ s.
Proof.
  intros Hs. split.
  - destruct s as [|a [|b s]]; simpl; [lia..|]. intros _.
    apply NoDup_cons in Hs as [Hab _].
    rewrite elem_of_cons in Hab.
    destruct a, b; first [by destruct Hab; left|split; repeat constructor].
  - intros [Hu Hr].
    destruct s as [|a [|b s]]; simpl; [|destruct a|lia].
    + by apply elem_of_nil in Hu.
    + by apply list_elem_of_singleton in Hr.
    + by apply list_elem_of_singleton in Hu.
Qed.

Lemma filter_snoc {A} (P : A → Prop) `{!∀ x, Decision (P x)} (l : list A) x :
  filter P (l ++ [x]) = filter P l ++ (if decide (P x) then [x] else []).
Proof.
  rewrite filter_app, filter_cons, filter_nil. by case_decide.
Qed.

Lemma Set_add_old {A} `{!EqDecision A} (s : list A) (x : A) :
  x ∈ s → Set_add s x = s.
Proof. intros Hx. unfold Set_add. by rewrite decide_True. Qed.

Lemma Set_add_new {A} `{!EqDecision A} (s : list A) (x : A) :
  x ∉ s → Set_add s x = s ++ [x].
Proof. intros Hx. unfold Set_add. by rewrite decide_False. Qed.

Lemma fmap_fst_pair {A B} (f : A → B) (l : list A) :
  ((λ k, (k, f k)) <$> l).*1 = l.
Proof.
  rewrite <-list_fmap_compose. rewrite (list_fmap_ext _ id) by done.
  apply list_fmap_id.
Qed.

Lemma fmap_snd_pair {A B} (f : A → B) (l : list A) :
  ((λ k, (k, f k)) <$> l).*2 = f <$> l.
Proof. rewrite <-list_fmap_compose. by apply list_fmap_ext. Qed.

Lemma types_of_snoc rs r k :
  types_of (rs ++ [r]) k
  = if decide (k = r_item_id (j_row r))
    then Set_add (types_of rs k) (r_type (j_row r))
    else types_of rs k.
Proof.
  unfold types_of. rewrite filter_snoc.
  destruct (decide (k = r_item_id (j_row r))) as [->|Hk].
  - rewrite decide_True by done. rewrite fmap_app. simpl.
    by rewrite new_Set_snoc.
  - rewrite decide_False by done. by rewrite app_nil_r.
Qed.

Lemma types_push_fold (rs : list PendingRequestJoined) :
  foldl pendingRequestService.types_push [] rs
  = (λ k, (k, types_of rs k)) <$> new_Set ((λ r, r_item_id (j_row r)) <$> rs).
Proof.
  induction rs as [|r rs IH] using rev_ind; [done|].
  rewrite foldl_snoc, IH, fmap_app. clear IH. simpl. rewrite new_Set_snoc.
  unfold pendingRequestService.types_push. rewrite fmap_fst_pair.
  set (key := r_item_id (j_row r)). set (seen := new_Set _).
  assert (Hrows : ∀ l : list nat,
    (λ kv : nat * list RequestType,
       if decide (kv.1 = key)
       then (kv.1, Set_add kv.2 (r_type (j_row r))) else kv)
      <$> ((λ k, (k, types_of rs k)) <$> l)
    = (λ k, (k, types_of (rs ++ [r]) k)) <$> l).
  { intros l. rewrite <-list_fmap_compose. apply list_fmap_ext.
    intros _ k _. unfold compose. cbn [fst snd].
    rewrite types_of_snoc. fold key. by case_decide. }
  destruct (decide (key ∈ seen)) as [Hseen|Hseen].
  - by rewrite Set_add_old, Hrows.
  - rewrite Set_add_new, !fmap_app, Hrows by done. f_equal. simpl.
    rewrite decide_True by done. rewrite types_of_snoc. fold key.
    rewrite decide_True by done. do 3 f_equal. unfold types_of.
    rewrite filter_none; [done|].
    intros x Hx Hkey. apply Hseen, new_Set_elem_of, list_elem_of_fmap.
    by exists x.
Qed.

Lemma group_of_snoc rs r k :
  group_of (rs ++ [r]) k
  = if decide (k = pendingRequestService.group_key r)
    then if decide (k ∈ pendingRequestService.group_key <$> rs)
         then {| pendingRequestService.g_item :=
                   pendingRequestService.g_item (group_of rs k);
                 pendingRequestService.g_type :=
                   pendingRequestService.g_type (group_of rs k);
                 pendingRequestService.g_requests :=
                   pendingRequestService.g_requests (group_of rs k) ++ [r] |}
         else {| pendingRequestService.g_item := j_item r;
                 pendingRequestService.g_type := r_type (j_row r);
                 pendingRequestService.g_requests := [] ++ [r] |}
    else group_of rs k.
Proof.
  unfold group_of, requests_of_key. rewrite filter_snoc.
  destruct (decide (k = pendingRequestService.group_key r)) as [->|Hk].
  - rewrite decide_True by done. case_decide as Hin; simpl.
    + f_equal. apply list_elem_of_fmap in Hin as (x & Hx & Hin).
      destruct (filter _ rs) as [|y l] eqn:Hl; [|done].
      exfalso. eapply elem_of_nil. rewrite <-Hl.
      by apply list_elem_of_filter.
    + rewrite filter_none; [done|].
      intros x Hx Hkey. apply Hin, list_elem_of_fmap. by exists x.
  - rewrite decide_False by done. by rewrite app_nil_r.
Qed.

Lemma group_push_fold (rs : list PendingRequestJoined) :
  foldl pendingRequestService.group_push [] rs
  = (λ k, (k, group_of rs k))
      <$> new_Set (pendingRequestService.group_key <$> rs).
Proof.
  induction rs as [|r rs IH] using rev_ind; [done|].
  rewrite foldl_snoc, IH, fmap_app. clear IH. simpl. rewrite new_Set_snoc.
  unfold pendingRequestService.group_push. rewrite fmap_fst_pair.
  set (key := pendingRequestService.group_key r). set (seen := new_Set _).
  assert (Hrows : ∀ l : list (nat * RequestType),
    l ⊆ seen →
    (λ kv : nat * RequestType * pendingRequestService.RequestGroup,
       if decide (kv.1 = key)
       then (kv.1,
             {| pendingRequestService.g_item :=
                  pendingRequestService.g_item kv.2;
                pendingRequestService.g_type :=
                  pendingRequestService.g_type kv.2;
                pendingRequestService.g_requests :=
                  pendingRequestService.g_requests kv.2 ++ [r] |})
       else kv)
      <$> ((λ k, (k, group_of rs k)) <$> l)
    = (λ k, (k, group_of (rs ++ [r]) k)) <$> l).
  { intros l Hl. rewrite <-list_fmap_compose. apply Forall_fmap_ext_1.
    apply Forall_forall. intros k Hk%Hl.
    unfold seen in Hk. rewrite new_Set_elem_of in Hk.
    unfold compose. cbn [fst snd]. rewrite group_of_snoc. fold key.
    case_decide; [|done]. by rewrite decide_True. }
  destruct (decide (key ∈ seen)) as [Hseen|Hseen].
  - by rewrite Set_add_old, Hrows.
  - rewrite Set_add_new, !fmap_app, Hrows by done. f_equal. simpl.
    rewrite decide_True by done. rewrite group_of_snoc. fold key.
    rewrite decide_True by done. rewrite decide_False; [done|].
    unfold seen in Hseen. by rewrite new_Set_elem_of in Hseen.
Qed.

Lemma mret_run {A} (a b : A) (w w' : World) :
  (mret a : M A) w = (w', inr b) → w' = w ∧ b = a.
Proof. unfold_M. by intros [= <- <-]. Qed.

(** X19.  The dashboard's groups partition the listing: when it resolves,
    [getGroupedPendingRequests] has one group per item and type that is
    asked for, no key twice; a group holds exactly the listed requests of
    its key, in the order of the listing, and is never empty; its type is
    its key's and its item is the item of each of its requests.  Every
    listed request is in the group of its own item and type. *)
Theorem getGroupedPendingRequests_partitions w w' groups :
  pendingRequestService.getGroupedPendingRequests w = (w', inr groups) →
  ∃ requests,
    pendingRequestService.getAllPendingRequests w = (w', inr requests)
    ∧ NoDup groups.*1
    ∧ (∀ r, r ∈ requests →
         ∃ g, (pendingRequestService.group_key r, g) ∈ groups
              ∧ r ∈ pendingRequestService.g_requests g)
    ∧ ∀ key g, (key, g) ∈ groups →
        pendingRequestService.g_requests g
        = filter (λ r, pendingRequestService.group_key r = key) requests
        ∧ pendingRequestService.g_requests g ≠ []
        ∧ pendingRequestService.g_type g = key.2
        ∧ Forall (λ r, j_item r = pendingRequestService.g_item g)
            (pendingRequestService.g_requests g).
Proof.
  intros (w1 & requests & Hall & [-> ->]%mret_run)%bind_resolves.
  exists requests. rewrite group_push_fold, fmap_fst_pair.
  split_and!; [done|apply new_Set_NoDup| |].
  - intros r Hr. exists (group_of requests (pendingRequestService.group_key r)).
    split.
    + apply list_elem_of_fmap. exists (pendingRequestService.group_key r).
      split; [done|]. apply new_Set_elem_of, list_elem_of_fmap. by exists r.
    + simpl. by apply list_elem_of_filter.
  - intros key g (k & [= -> ->] & Hk)%list_elem_of_fmap.
    apply new_Set_elem_of, list_elem_of_fmap in Hk as (r & -> & Hr).
    simpl. unfold requests_of_key. split_and!; [done| |done|].
    + intros Hnil. eapply elem_of_nil. rewrite <-Hnil.
      by apply list_elem_of_filter.
    + apply getAllPendingRequests_run in Hall as [_ ->].
      destruct (filter _ _) as [|x l] eqn:Hl; [done|]. simpl.
      assert (Hx : x ∈ x :: l) by left. rewrite <-Hl in Hx.
      apply list_elem_of_filter in Hx as [Hx (x0 & -> & _)%list_elem_of_fmap].
      apply Forall_forall. intros y Hy. rewrite <-Hl in Hy.
      apply list_elem_of_filter in Hy as [Hy (y0 & -> & _)%list_elem_of_fmap].
      unfold pendingRequestService.group_key in Hx, Hy. simpl in *.
      congruence.
Qed.

Lemma getGroupedPendingRequests_partitions_witness :
  ∃ groups,
    pendingRequestService.getGroupedPendingRequests two_requests
      = (answered two_requests, inr groups)
    ∧ NoDup groups.*1
    ∧ groups.*1 = [(10, use)]
    ∧ (λ g, r_id ∘ j_row <$> pendingRequestService.g_requests g) <$> groups.*2
      = [[101; 100]].
Proof.
  eexists. split; [vm_compute; reflexivity|].
  edestruct (getGroupedPendingRequests_partitions two_requests)
    as (_ & _ & Hkeys & _); [vm_compute; reflexivity|].
  split_and!; [exact Hkeys|reflexivity|reflexivity].
Defined.

Lemma types_of_listing d (l : list PendingRequest) k t :
  l ≡ₚ pending_requests d →
  t ∈ types_of (join_request d <$> l) k ↔ t ∈ requested_types d k.
Proof.
  intros Hl. unfold types_of, requested_types.
  rewrite new_Set_elem_of, filter_fmap, <-!list_fmap_compose.
  rewrite (list_fmap_ext _ r_type) by done. simpl. by rewrite Hl.
Qed.

Lemma conflict_in_listing d (l : list PendingRequest) k :
  l ≡ₚ pending_requests d →
  (1 < List.length (types_of (join_request d <$> l) k))%nat ↔ conflicting d k.
Proof.
  intros Hl. rewrite both_types by apply new_Set_NoDup.
  unfold conflicting. by rewrite !types_of_listing.
Qed.

(** X20.  A conflict is both kinds of request at once: when it resolves,
    [hasConflictingRequests] answers true exactly when the item has an
    open request to use it and an open request to return it; it writes
    nothing. *)
Theorem hasConflictingRequests_both_types itemId w w' b :
  pendingRequestService.hasConflictingRequests itemId w = (w', inr b) →
  w' = answered w
  ∧ (b = true ↔
     (∃ r, r ∈ pending_requests (db w) ∧ r_item_id r = itemId ∧ r_type r = use)
     ∧ (∃ r, r ∈ pending_requests (db w) ∧ r_item_id r = itemId
             ∧ r_type r = return_)).
Proof.
  intros (w1 & requests & (-> & ->)%getPendingRequestsForItem_answered
          & [-> ->]%mret_run)%bind_resolves.
  split; [done|]. rewrite bool_decide_eq_true.
  rewrite both_types by apply new_Set_NoDup.
  rewrite !new_Set_elem_of, <-!list_fmap_compose.
  rewrite (list_fmap_ext _ r_type) by done.
  rewrite merge_sort_Permutation.
  rewrite !list_elem_of_fmap.
  setoid_rewrite list_elem_of_filter.
  split; intros [(r1 & ? & ? & ?) (r2 & ? & ? & ?)];
    (split; [exists r1|exists r2]); done.
Qed.

Lemma hasConflictingRequests_both_types_witness :
  pendingRequestService.hasConflictingRequests 10 contested
    = (answered contested, inr true)
  ∧ pendingRequestService.hasConflictingRequests 10 two_requests
    = (answered two_requests, inr false)
  ∧ ∃ r, r ∈ pending_requests (db contested)
         ∧ r_item_id r = 10 ∧ r_type r = return_.
Proof.
  split_and!; [vm_compute; reflexivity..|].
  edestruct (hasConflictingRequests_both_types 10 contested) as [_ [Hboth _]];
    [vm_compute; reflexivity|].
  exact (proj2 (Hboth eq_refl)).
Defined.

Lemma type_counts (rs : list PendingRequestJoined) :
  (List.length (filter (λ r, r_type (j_row r) = use) rs)
   + List.length (filter (λ r, r_type (j_row r) = return_) rs))%nat
  = List.length rs.
Proof.
  induction rs as [|r rs IH]; [done|].
  rewrite !filter_cons.
  destruct (r_type (j_row r)); repeat case_decide; try done; simpl; lia.
Qed.

(** X21.  The dashboard's counts: when they resolve, the total is the
    length of the queue, every request is counted as a borrow request or
    as a return request and never as both, and the conflicting items are
    exactly the items of the queue that have both an open request to use
    and an open request to return, each counted once.  Nothing is
    written. *)
Theorem getRequestStatistics_counts w w' s :
  pendingRequestService.getRequestStatistics w = (w', inr s) →
  w' = answered w
  ∧ pendingRequestService.totalPending s
    = List.length (pending_requests (db w))
  ∧ (pendingRequestService.borrowRequests s
     + pendingRequestService.returnRequests s)%nat
    = pendingRequestService.totalPending s
  ∧ pendingRequestService.conflictingItems s
    = List.length (filter (conflicting (db w))
                     (remove_dups (r_item_id <$> pending_requests (db w)))).
Proof.
  intros (w1 & requests & (-> & ->)%getAllPendingRequests_run
          & [-> ->]%mret_run)%bind_resolves.
  pose proof (merge_sort_Permutation newer_first (pending_requests (db w)))
    as Hperm.
  simpl. split_and!; [done| |apply type_counts|].
  - by rewrite length_fmap, Hperm.
  - rewrite types_push_fold, fmap_snd_pair, filter_fmap, length_fmap.
    rewrite (list_filter_iff _ (conflicting (db w)))
      by (intros k; by apply conflict_in_listing).
    apply Permutation_length, filter_Permutation.
    apply NoDup_Permutation; [apply new_Set_NoDup|apply NoDup_remove_dups|].
    intros k. rewrite new_Set_elem_of, elem_of_remove_dups.
    rewrite <-list_fmap_compose, (list_fmap_ext _ r_item_id) by done.
    by rewrite Hperm.
Qed.

Lemma getRequestStatistics_counts_witness :
  ∃ s,
    pendingRequestService.getRequestStatistics contested
      = (answered contested, inr s)
    ∧ pendingRequestService.totalPending s = 2
    ∧ (pendingRequestService.borrowRequests s
       + pendingRequestService.returnRequests s)%nat
      = pendingRequestService.totalPending s
    ∧ pendingRequestService.conflictingItems s = 1.
Proof.
  eexists. split; [vm_compute; reflexivity|].
  edestruct (getRequestStatistics_counts contested) as (_ & _ & Hsum & _);
    [vm_compute; reflexivity|].
  split_and!; [reflexivity|exact Hsum|reflexivity].
Defined.

(** ** The two duplicate checks *)

Lemma existsb_filter {A} (P : A → Prop) `{!∀ x, Decision (P x)} (l : list A) :
  existsb (λ x, bool_decide (P x)) l = true ↔ filter P l ≠ [].
Proof.
  induction l as [|x l IH]; simpl; [done|].
  rewrite filter_cons, orb_true_iff, bool_decide_eq_true, IH.
  case_decide; split; try done; tauto.
Qed.

Lemma filter_nonempty_Permutation {A} (P : A → Prop) `{!∀ x, Decision (P x)}
    (l k : list A) :
  l ≡ₚ k → filter P l ≠ [] ↔ filter P k ≠ [].
Proof.
  intros Hlk.
  assert (Hf : filter P l ≡ₚ filter P k) by by apply filter_Permutation.
  split; intros Hne Hnil; apply Hne; rewrite Hnil in Hf.
  - by apply Permutation_nil_r.
  - by apply Permutation_nil_r.
Qed.

(** X22.  The page's duplicate check and the service's: on a listing the
    page has just loaded, the page finds a pending request of the user
    for the item and type exactly when the queue holds at least one; the
    service's check answers true exactly when the queue holds exactly
    one.  So whenever the service's check finds a duplicate the page
    shows the request as pending, and once the queue holds the same
    request twice the service's check answers false. *)
Theorem duplicate_checks_compared itemId userId actionType w w1 all :
  pendingRequestService.getAllPendingRequests w = (w1, inr all) →
  let matching :=
    filter (λ r, r_item_id r = itemId ∧ r_requested_by r = userId
                 ∧ r_type r = actionType) (pending_requests (db w)) in
  (ItemList.hasUserPendingRequest (j_row <$> all) (Some userId) itemId actionType
   = true ↔ matching ≠ [])
  ∧ (itemService.hasUserPendingRequest itemId userId actionType w).2
    = inr (bool_decide (List.length matching = 1))
  ∧ ((itemService.hasUserPendingRequest itemId userId actionType w).2
     = inr true →
     ItemList.hasUserPendingRequest (j_row <$> all) (Some userId) itemId
       actionType = true).
Proof.
  intros Hall. simpl.
  assert (Hanswered : hd None (faults w) = None).
  { revert Hall. unfold pendingRequestService.getAllPendingRequests. unfold_M.
    by destruct (faults w) as [|[msg|] fs]. }
  apply getAllPendingRequests_run in Hall as [-> ->].
  rewrite fmap_j_row. unfold ItemList.hasUserPendingRequest.
  rewrite existsb_filter.
  rewrite (filter_nonempty_Permutation _ _ _ (merge_sort_Permutation _ _)).
  assert (Hservice :
    (itemService.hasUserPendingRequest itemId userId actionType w).2
    = inr (bool_decide
             (List.length
                (filter (λ r, r_item_id r = itemId ∧ r_requested_by r = userId
                              ∧ r_type r = actionType)
                   (pending_requests (db w))) = 1))).
  { unfold itemService.hasUserPendingRequest. unfold_M.
    destruct (faults w) as [|[msg|] fs]; simplify_eq/=;
      by destruct (filter _ _) as [|x [|y l]]. }
  split_and!; [done|done|].
  rewrite Hservice. intros [= Hone%bool_decide_eq_true].
  by destruct (filter _ _).
Qed.

Lemma duplicate_checks_compared_witness :
  ∃ all,
    pendingRequestService.getAllPendingRequests two_requests
      = (answered two_requests, inr all)
    ∧ ItemList.hasUserPendingRequest (j_row <$> all) (Some 2) 10 use = true
    ∧ (itemService.hasUserPendingRequest 10 2 use two_requests).2 = inr true.
Proof.
  eexists. split; [vm_compute; reflexivity|].
  edestruct (duplicate_checks_compared 10 2 use two_requests)
    as (_ & _ & Hpage); [vm_compute; reflexivity|].
  split; [apply Hpage|]; vm_compute; reflexivity.
Defined.
